(** * The scheduled-post dispatcher of socialgem

    A shallow embedding of
    [supabase/functions/publish-scheduled-posts/index.ts]: the edge function
    that selects the due posts, tries to publish every content row of each
    of them, writes the outcome of every row and the final status of every
    post, and answers with a run summary.

    The store behind the Supabase client is modelled as three tables (lists
    of rows, in table order).  A query resolves to a [{ data, error }] pair
    as the client library does: a failing query resolves with its [error]
    field set and never rejects.  Which queries fail is decided by the
    environment.  The [trace] of a world is ghost state: it lists, in order,
    the calls that left the handler; the code never reads it. *)

From Stdlib Require Import String Ascii List ZArith Bool Arith Lia.
Import ListNotations.

Local Open Scope string_scope.
Local Open Scope list_scope.

Set Implicit Arguments.

(** ** Rows of the three tables *)

(** [posts.status]: a text column checked against these five values. *)
Inductive post_status : Type :=
  | draft | scheduled | publishing | published | failed.

Definition post_status_eqb (a b : post_status) : bool :=
  match a, b with
  | draft, draft | scheduled, scheduled | publishing, publishing
  | published, published | failed, failed => true
  | _, _ => false
  end.

(** Timestamps ([timestamptz], ISO strings on the wire) are instants on the
    integer time line. *)
Definition timestamp := Z.

Module Post.
Record t : Type := Build {
  id : string;
  user_id : string;
  title : string;
  media_ids : list string;
  scheduled_for : option timestamp;
  status : post_status
}.
End Post.

Module PostContent.
Record t : Type := Build {
  id : string;
  post_id : string;
  platform : string;
  content_text : string;
  hashtags : option (list string);   (* text[] DEFAULT '{}', nullable *)
  published_url : option string;
  published_at : option timestamp;
  error_message : option string
}.
End PostContent.

Module SocialAccount.
Record t : Type := Build {
  id : string;
  user_id : string;
  platform : string;
  access_token : option string;
  is_active : bool
}.
End SocialAccount.

Record database : Type := Database {
  posts : list Post.t;
  post_content : list PostContent.t;
  social_accounts : list SocialAccount.t
}.

(** ** What the select of lines 25-42 returns: a post with its nested rows *)

Module Content.
Record t : Type := Build {
  id : string;
  platform : string;
  content_text : string;
  hashtags : option (list string)
}.
End Content.

Module Due.
Record t : Type := Build {
  id : string;
  user_id : string;
  title : string;
  media_ids : list string;
  scheduled_for : option timestamp;
  post_content : list Content.t
}.
End Due.

(** ** Updates of a content row *)

(** The object given to [.update(...)] on [post_content]: a column that is
    absent from the object is [None]; a column set to [null] is
    [Some None]. *)
Record content_patch : Type := Patch {
  set_published_url : option (option string);
  set_published_at : option (option timestamp);
  set_error_message : option (option string)
}.

Definition assign {A : Type} (new : option A) (old : A) : A :=
  match new with
  | Some v => v
  | None => old
  end.

Definition apply_patch (p : content_patch) (r : PostContent.t) : PostContent.t :=
  PostContent.Build
    (PostContent.id r) (PostContent.post_id r) (PostContent.platform r)
    (PostContent.content_text r) (PostContent.hashtags r)
    (assign (set_published_url p) (PostContent.published_url r))
    (assign (set_published_at p) (PostContent.published_at r))
    (assign (set_error_message p) (PostContent.error_message r)).

Definition set_status (st : post_status) (r : Post.t) : Post.t :=
  Post.Build (Post.id r) (Post.user_id r) (Post.title r) (Post.media_ids r)
             (Post.scheduled_for r) st.

(** ** The four queries of the handler, on the tables *)

(** [.eq('status', 'scheduled').lte('scheduled_for', now)]: a row whose
    [scheduled_for] is null does not satisfy [lte]. *)
Definition is_due (now : timestamp) (r : Post.t) : bool :=
  post_status_eqb (Post.status r) scheduled
  && match Post.scheduled_for r with
     | Some t => (t <=? now)%Z
     | None => false
     end.

Definition nested_content (r : PostContent.t) : Content.t :=
  Content.Build (PostContent.id r) (PostContent.platform r)
                (PostContent.content_text r) (PostContent.hashtags r).

Definition with_content (d : database) (r : Post.t) : Due.t :=
  Due.Build (Post.id r) (Post.user_id r) (Post.title r) (Post.media_ids r)
            (Post.scheduled_for r)
            (map nested_content
               (filter (fun c => PostContent.post_id c =? Post.id r)
                       (post_content d))).

(** The batch ceiling of [.limit(10)]. *)
Definition batch_limit : nat := 10.

(** Lines 25-42.  The query has a limit and no order: [posts d] lists the
    rows in the order in which the store yields them to this select, and
    of more than ten due rows the first ten of that order are returned. *)
Definition due_rows (now : timestamp) (d : database) : list Post.t :=
  firstn batch_limit (filter (is_due now) (posts d)).

Definition select_due_posts (now : timestamp) (d : database) : list Due.t :=
  map (with_content d) (due_rows now d).

Definition update_post_status (pid : string) (st : post_status)
    (d : database) : database :=
  Database
    (map (fun r => if Post.id r =? pid then set_status st r else r) (posts d))
    (post_content d) (social_accounts d).

Definition select_active_accounts (uid : string) (d : database)
    : list SocialAccount.t :=
  filter (fun a => (SocialAccount.user_id a =? uid) && SocialAccount.is_active a)
         (social_accounts d).

Definition update_post_content (cid : string) (p : content_patch)
    (d : database) : database :=
  Database
    (posts d)
    (map (fun r => if PostContent.id r =? cid then apply_patch p r else r)
         (post_content d))
    (social_accounts d).

(** ** What the tables hold for a given identifier *)

Definition stored_status (d : database) (pid : string) : option post_status :=
  option_map Post.status (find (fun r => Post.id r =? pid) (posts d)).

Definition stored_content (d : database) (cid : string) : option PostContent.t :=
  find (fun r => PostContent.id r =? cid) (post_content d).

(** ** Worlds, environments and the monad of the handler *)

(** A request sent through the Supabase client. *)
Inductive request : Type :=
  | SelectDuePosts (now : timestamp)
  | UpdatePostStatus (pid : string) (st : post_status)
  | SelectActiveAccounts (uid : string)
  | UpdatePostContent (cid : string) (p : content_patch).

(** The four per-platform publish functions. *)
Inductive variant_name : Type :=
  | Instagram | Facebook | TikTok | Pinterest.

Inductive event : Type :=
  | Sent (q : request)
  | Publish (platform content : string) (hashtags : option (list string))
            (mediaIds : list string) (account : SocialAccount.t)
  | Variant (v : variant_name) (content : string) (mediaIds : list string)
            (account : SocialAccount.t).

Definition is_write (e : event) : bool :=
  match e with
  | Sent (UpdatePostStatus _ _) | Sent (UpdatePostContent _ _) => true
  | _ => false
  end.

Definition is_publish (e : event) : bool :=
  match e with
  | Publish _ _ _ _ _ | Variant _ _ _ _ => true
  | Sent _ => false
  end.

Record world : Type := World {
  db : database;
  ticks : nat;          (* how many times the clock was read *)
  trace : list event    (* the calls made so far, oldest first *)
}.

(** The environment: the reading of the clock at its n-th read, and the
    error (if any) with which the store answers request [q] when [n] calls
    were made before it. *)
Record environment : Type := Environment {
  clock : nat -> timestamp;
  fault : nat -> request -> option string
}.

(** A JavaScript completion: a value, or a thrown error (its [message]). *)
Inductive completion (A : Type) : Type :=
  | Normal (a : A)
  | Throw (message : string).
Arguments Throw {A} message.

Definition M (A : Type) : Type := world -> completion A * world.

Definition ret {A : Type} (a : A) : M A := fun w => (Normal a, w).

Definition throw {A : Type} (message : string) : M A :=
  fun w => (Throw message, w).

Definition bind {A B : Type} (c : M A) (k : A -> M B) : M B :=
  fun w =>
    match c w with
    | (Normal a, w1) => k a w1
    | (Throw message, w1) => (Throw message, w1)
    end.

Definition try_catch {A : Type} (c : M A) (handler : string -> M A) : M A :=
  fun w =>
    match c w with
    | (Normal a, w1) => (Normal a, w1)
    | (Throw message, w1) => handler message w1
    end.

Notation "x <- c ;; k" := (bind c (fun x => k))
  (at level 61, c at next level, right associativity).
Notation "c ;;; k" := (bind c (fun _ => k))
  (at level 61, right associativity).

Definition record (e : event) : M unit :=
  fun w => (Normal tt, World (db w) (ticks w) (trace w ++ [e])).

(** The [{ data, error }] object a query resolves to. *)
Record reply (A : Type) : Type := Reply {
  data : option A;
  error : option string
}.

Definition effect (q : request) (d : database) : database :=
  match q with
  | UpdatePostStatus pid st => update_post_status pid st d
  | UpdatePostContent cid p => update_post_content cid p d
  | SelectDuePosts _ | SelectActiveAccounts _ => d
  end.

(** A per-platform publish function: given the text, the media references
    and the account, it returns the [url] of its [{ url }] object or
    throws. *)
Definition publisher : Type :=
  string -> list string -> SocialAccount.t -> completion string.

(** ** The run summary and the response *)

Inductive result_entry : Type :=
  | Counted (post_id title : string) (success failed : nat)
  | Errored (post_id title error : string).

Definition entry_post_id (e : result_entry) : string :=
  match e with
  | Counted pid _ _ _ | Errored pid _ _ => pid
  end.

Inductive response_body : Type :=
  | NoBody
  | Idle (message : string) (processed : nat)
  | Finished (message : string) (processed : nat) (results : list result_entry)
  | Failure (error : string).

Record response : Type := Response {
  status : Z;
  body : response_body
}.

Definition processed_of (r : response) : option nat :=
  match body r with
  | Idle _ n | Finished _ n _ => Some n
  | NoBody | Failure _ => None
  end.

Definition newline : string := String (ascii_of_nat 10) EmptyString.

(** Line 172: the template literal of [publishToSocialMedia]. *)
Definition fullContent (content : string) (hashtags : list string) : string :=
  content ++ newline ++ newline ++ String.concat " " hashtags.

(** Line 116. *)
Definition finalStatus (successCount failureCount : nat) : post_status :=
  if Nat.eqb failureCount 0 then published
  else if Nat.ltb 0 successCount then published else failed.

(** Line 77: [socialAccounts?.find(acc => acc.platform === content.platform)]. *)
Definition findAccount (socialAccounts : option (list SocialAccount.t))
    (platform : string) : option SocialAccount.t :=
  match socialAccounts with
  | Some accounts =>
      find (fun acc => SocialAccount.platform acc =? platform) accounts
  | None => None
  end.

(** Lines 174-185: the function a platform string selects in the [switch]
    of [publishToSocialMedia]; [None] is its [default] branch. *)
Definition variant_of (platform : string) : option variant_name :=
  if platform =? "instagram" then Some Instagram
  else if platform =? "facebook" then Some Facebook
  else if platform =? "tiktok" then Some TikTok
  else if platform =? "pinterest" then Some Pinterest
  else None.

(** The literals written to [error_message]. *)
Definition not_connected : string := "Compte non connecté".
Definition unsupported (platform : string) : string :=
  "Plateforme non supportée: " ++ platform.

(** The message of the TypeError that [hashtags.join] throws when
    [hashtags] is null (the wording of V8, the engine of Deno). *)
Definition null_join : string :=
  "Cannot read properties of null (reading 'join')".

Section Handler.

Variable env : environment.
(** The bodies of the four per-platform functions. *)
Variable api : variant_name -> publisher.

(** [new Date().toISOString()] *)
Definition new_Date : M timestamp :=
  fun w => (Normal (clock env (ticks w)),
            World (db w) (S (ticks w)) (trace w)).

(** A select: answers with the rows, or with the error of the
    environment. *)
Definition ask {A : Type} (q : request) (rows : database -> A) : M (reply A) :=
  fun w =>
    let w1 := World (db w) (ticks w) (trace w ++ [Sent q]) in
    match fault env (length (trace w)) q with
    | Some e => (Normal (Reply None (Some e)), w1)
    | None => (Normal (Reply (Some (rows (db w))) None), w1)
    end.

(** An update without [.select()]: [data] is null either way; the rows
    change unless the store answers with an error. *)
Definition update (q : request) : M (reply unit) :=
  fun w =>
    match fault env (length (trace w)) q with
    | Some e =>
        (Normal (Reply None (Some e)),
         World (db w) (ticks w) (trace w ++ [Sent q]))
    | None =>
        (Normal (Reply None None),
         World (effect q (db w)) (ticks w) (trace w ++ [Sent q]))
    end.

Definition call (v : variant_name) (content : string)
    (mediaIds : list string) (account : SocialAccount.t) : M string :=
  record (Variant v content mediaIds account) ;;;
  fun w => (api v content mediaIds account, w).

(** Lines 165-186; the [switch] is [variant_of].  Line 172 comes first: on
    a null [hashtags] the call of [join] throws before the [switch]. *)
Definition publishToSocialMedia (platform content : string)
    (hashtags : option (list string)) (mediaIds : list string)
    (account : SocialAccount.t) : M string :=
  record (Publish platform content hashtags mediaIds account) ;;;
  match hashtags with
  | None => throw null_join
  | Some tags =>
      let fullContent := fullContent content tags in
      match variant_of platform with
      | Some v => call v fullContent mediaIds account
      | None => throw (unsupported platform)
      end
  end.

(** Lines 76-114, the body of the inner loop; the counters are threaded
    as a pair [(successCount, failureCount)]. *)
Definition publishContent (post : Due.t)
    (socialAccounts : option (list SocialAccount.t))
    (counts : nat * nat) (content : Content.t) : M (nat * nat) :=
  let '(successCount, failureCount) := counts in
  match findAccount socialAccounts (Content.platform content) with
  | None =>
      update (UpdatePostContent (Content.id content)
                (Patch None None (Some (Some not_connected)))) ;;;
      ret (successCount, S failureCount)
  | Some account =>
      try_catch
        (url <- publishToSocialMedia (Content.platform content)
                  (Content.content_text content) (Content.hashtags content)
                  (Due.media_ids post) account ;;
         published_at <- new_Date ;;
         update (UpdatePostContent (Content.id content)
                   (Patch (Some (Some url)) (Some (Some published_at))
                          (Some None))) ;;;
         ret (S successCount, failureCount))
        (fun message =>
           update (UpdatePostContent (Content.id content)
                     (Patch None None (Some (Some message)))) ;;;
           ret (successCount, S failureCount))
  end.

Fixpoint publishContents (post : Due.t)
    (socialAccounts : option (list SocialAccount.t))
    (counts : nat * nat) (rows : list Content.t) : M (nat * nat) :=
  match rows with
  | [] => ret counts
  | content :: rest =>
      counts1 <- publishContent post socialAccounts counts content ;;
      publishContents post socialAccounts counts1 rest
  end.

(** Lines 60-127, the [try] block of the outer loop; it returns the entry
    it pushes on [results]. *)
Definition publishPost (post : Due.t) : M result_entry :=
  marked <- update (UpdatePostStatus (Due.id post) publishing) ;;
  match error marked with
  | Some updateError => throw updateError
  | None =>
      accounts <- ask (SelectActiveAccounts (Due.user_id post))
                      (select_active_accounts (Due.user_id post)) ;;
      counts <- publishContents post (data accounts) (0, 0)
                  (Due.post_content post) ;;
      update (UpdatePostStatus (Due.id post)
                (finalStatus (fst counts) (snd counts))) ;;;
      ret (Counted (Due.id post) (Due.title post) (fst counts) (snd counts))
  end.

(** Lines 59-139, the body of the outer loop with its [catch]. *)
Definition processPost (post : Due.t) : M result_entry :=
  try_catch
    (publishPost post)
    (fun message =>
       update (UpdatePostStatus (Due.id post) failed) ;;;
       ret (Errored (Due.id post) (Due.title post) message)).

Fixpoint processPosts (postsToPublish : list Due.t) : M (list result_entry) :=
  match postsToPublish with
  | [] => ret []
  | post :: rest =>
      entry <- processPost post ;;
      results <- processPosts rest ;;
      ret (entry :: results)
  end.

Definition nothing_to_publish : response :=
  Response 200 (Idle "Aucun post à publier" 0).

(** Lines 10-163: the handler given to [Deno.serve], as a function of the
    request method. *)
Definition serve (method : string) (w : world) : response * world :=
  if method =? "OPTIONS" then (Response 200 NoBody, w)
  else
    match
      (now <- new_Date ;;
       fetched <- ask (SelectDuePosts now) (select_due_posts now) ;;
       match error fetched with
       | Some fetchError => throw fetchError
       | None =>
           match data fetched with
           | None | Some [] => ret nothing_to_publish
           | Some postsToPublish =>
               results <- processPosts postsToPublish ;;
               ret (Response 200
                      (Finished "Publication terminée"
                                (length postsToPublish) results))
           end
       end) w
    with
    | (Normal r, w1) => (r, w1)
    | (Throw message, w1) =>
        (Response 500
           (Failure (if message =? "" then "Erreur serveur" else message)),
         w1)
    end.

End Handler.

(** Lines 188-218: the four per-platform functions of the repository. *)
Definition publishToInstagram : publisher :=
  fun content mediaIds account =>
    Throw "Instagram API nécessite une configuration OAuth complète avec un compte Business".

Definition publishToFacebook : publisher :=
  fun content mediaIds account =>
    Throw "Facebook API nécessite une configuration OAuth complète".

Definition publishToTikTok : publisher :=
  fun content mediaIds account =>
    Throw "TikTok API nécessite une configuration OAuth complète".

Definition publishToPinterest : publisher :=
  fun content mediaIds account =>
    Throw "Pinterest API nécessite une configuration OAuth complète".

Definition platform_api (v : variant_name) : publisher :=
  match v with
  | Instagram => publishToInstagram
  | Facebook => publishToFacebook
  | TikTok => publishToTikTok
  | Pinterest => publishToPinterest
  end.

(** The edge function as deployed. *)
Definition dispatcher (env : environment) : string -> world -> response * world :=
  serve env platform_api.

(** ** The spec's wording of the text given to a platform *)

(** "The caption text concatenated with the space-joined hashtag list". *)
Definition caption_with_hashtags (content : string) (hashtags : list string)
    : string :=
  content ++ String.concat " " hashtags.

(** [needle] occurs in [text]. *)
Definition mentions (needle text : string) : bool :=
  match index 0 needle text with
  | Some _ => true
  | None => false
  end.

(** ** A small store on which the handler is run *)

Module Sample.

Definition alice_instagram : SocialAccount.t :=
  SocialAccount.Build "a1" "alice" "instagram" (Some "token") true.
Definition alice_facebook_off : SocialAccount.t :=
  SocialAccount.Build "a2" "alice" "facebook" None false.
Definition bob_mastodon : SocialAccount.t :=
  SocialAccount.Build "a3" "bob" "mastodon" None true.

Definition launch : Post.t :=
  Post.Build "p1" "alice" "Launch" ["m1"] (Some 900%Z) scheduled.
Definition later : Post.t :=
  Post.Build "p2" "alice" "Later" [] (Some 5000%Z) scheduled.
Definition memo : Post.t :=
  Post.Build "p3" "bob" "Memo" [] (Some 950%Z) scheduled.
Definition sketch : Post.t :=
  Post.Build "p4" "bob" "Sketch" [] None draft.
Definition bare : Post.t :=
  Post.Build "p5" "alice" "Bare" [] (Some 10%Z) scheduled.

Definition launch_instagram : PostContent.t :=
  PostContent.Build "c1" "p1" "instagram" "hello" (Some ["#a"; "#b"])
    None None None.
Definition launch_facebook : PostContent.t :=
  PostContent.Build "c2" "p1" "facebook" "hi" (Some []) None None None.
Definition memo_mastodon : PostContent.t :=
  PostContent.Build "c3" "p3" "mastodon" "note" (Some ["#m"]) None None None.

Definition store : database :=
  Database [launch; later; memo; sketch]
           [launch_instagram; launch_facebook; memo_mastodon]
           [alice_instagram; alice_facebook_off; bob_mastodon].

(** Nothing is due at time 1000 here. *)
Definition idle_store : database :=
  Database [later; sketch] [] [alice_instagram].

(** A post without content rows is due here. *)
Definition bare_store : database :=
  Database [bare] [] [alice_instagram].

Definition start : world := World store 0 [].
Definition idle_start : world := World idle_store 0 [].
Definition bare_start : world := World bare_store 0 [].

Definition time (n : nat) : timestamp := (1000 + Z.of_nat n)%Z.

(** The store answers every request. *)
Definition quiet : environment := Environment time (fun _ _ => None).


(** The store fails on every select of the accounts. *)
Definition accounts_down : environment :=
  Environment time
    (fun _ q =>
       match q with
       | SelectActiveAccounts _ => Some "connection lost"
       | _ => None
       end).

(** Per-platform functions that publish. *)
Definition working_api (v : variant_name) : publisher :=
  fun content mediaIds account => Normal "https://social.example/1".

Definition due_launch : Due.t := with_content store launch.
Definition due_memo : Due.t := with_content store memo.
Definition due_bare : Due.t := with_content bare_store bare.

Definition row_instagram : Content.t := nested_content launch_instagram.
Definition row_facebook : Content.t := nested_content launch_facebook.
Definition row_mastodon : Content.t := nested_content memo_mastodon.

Definition alice_accounts : option (list SocialAccount.t) :=
  Some (select_active_accounts "alice" store).
Definition bob_accounts : option (list SocialAccount.t) :=
  Some (select_active_accounts "bob" store).

(** Two due posts whose only content row has null hashtags. *)
Definition plain : Post.t :=
  Post.Build "p6" "alice" "Plain" [] (Some 20%Z) scheduled.
Definition scrap : Post.t :=
  Post.Build "p7" "bob" "Scrap" [] (Some 30%Z) scheduled.

Definition plain_instagram : PostContent.t :=
  PostContent.Build "c4" "p6" "instagram" "hi" None None None None.
Definition scrap_mastodon : PostContent.t :=
  PostContent.Build "c5" "p7" "mastodon" "hi" None None None None.

Definition untagged_store : database :=
  Database [plain; scrap] [plain_instagram; scrap_mastodon]
           [alice_instagram; alice_facebook_off; bob_mastodon].

Definition untagged_start : world := World untagged_store 0 [].

Definition due_plain : Due.t := with_content untagged_store plain.
Definition due_scrap : Due.t := with_content untagged_store scrap.

Definition row_plain : Content.t := nested_content plain_instagram.
Definition row_scrap : Content.t := nested_content scrap_mastodon.

End Sample.

Unset Implicit Arguments.

(** ** What a run of the dispatcher may do to the world *)

(** The statuses the handler writes. *)
Definition written_status (st : post_status) : Prop :=
  st = publishing \/ st = published \/ st = failed.

(** [content] is a nested row of [post], one of the posts of [batch]. *)
Definition row_of (batch : list Due.t) (post : Due.t) (content : Content.t)
    : Prop :=
  In post batch /\ In content (Due.post_content post).

(** The requests a run on [batch] may send after the select of the posts. *)
Definition permitted (batch : list Due.t) (q : request) : Prop :=
  match q with
  | SelectDuePosts _ => False
  | UpdatePostStatus pid st => In pid (map Due.id batch) /\ written_status st
  | SelectActiveAccounts uid => In uid (map Due.user_id batch)
  | UpdatePostContent cid p =>
      exists post content, row_of batch post content /\ cid = Content.id content
  end.

(** The publish calls a run on [batch] may make when the accounts table
    holds [accounts]. *)
Definition called (batch : list Due.t) (accounts : list SocialAccount.t)
    (e : event) : Prop :=
  match e with
  | Sent _ => False
  | Publish platform content hashtags mediaIds account =>
      exists post row,
        row_of batch post row /\
        platform = Content.platform row /\
        content = Content.content_text row /\
        hashtags = Content.hashtags row /\
        mediaIds = Due.media_ids post /\
        In account accounts /\
        SocialAccount.user_id account = Due.user_id post /\
        SocialAccount.is_active account = true /\
        SocialAccount.platform account = platform
  | Variant v text mediaIds account =>
      exists post row,
        row_of batch post row /\
        variant_of (Content.platform row) = Some v /\
        (exists tags, Content.hashtags row = Some tags /\
                      text = fullContent (Content.content_text row) tags) /\
        mediaIds = Due.media_ids post /\
        In account accounts /\
        SocialAccount.user_id account = Due.user_id post /\
        SocialAccount.is_active account = true /\
        SocialAccount.platform account = Content.platform row
  end.

(** One move of a run: a reading of the clock, a permitted request (which
    changes the tables unless the store refuses it), or a publish call. *)
Inductive step (env : environment) (batch : list Due.t) (w : world)
    : world -> Prop :=
  | step_clock :
      step env batch w (World (db w) (S (ticks w)) (trace w))
  | step_request (q : request) :
      permitted batch q ->
      step env batch w
        (World (match fault env (length (trace w)) q with
                | Some _ => db w
                | None => effect q (db w)
                end) (ticks w) (trace w ++ [Sent q]))
  | step_call (e : event) :
      called batch (social_accounts (db w)) e ->
      step env batch w (World (db w) (ticks w) (trace w ++ [e])).

Inductive reaches (env : environment) (batch : list Due.t)
    : world -> world -> Prop :=
  | reaches_here (w : world) : reaches env batch w w
  | reaches_step (w w1 w2 : world) :
      step env batch w w1 -> reaches env batch w1 w2 -> reaches env batch w w2.

(** A row of [posts] before and after a run: untouched, or a post of the run
    with a new status. *)
Definition post_step (ids : list string) (r r' : Post.t) : Prop :=
  r' = r \/
  (In (Post.id r) ids /\ exists st, written_status st /\ r' = set_status st r).

(** A row of [post_content] before and after a run: untouched, or a row of
    the run whose identity, platform, caption and hashtags are kept. *)
Definition content_step (cids : list string) (r r' : PostContent.t) : Prop :=
  r' = r \/
  (In (PostContent.id r) cids /\
   nested_content r' = nested_content r /\
   PostContent.post_id r' = PostContent.post_id r).

Definition evolves (ids cids : list string) (d d' : database) : Prop :=
  social_accounts d' = social_accounts d /\
  Forall2 (post_step ids) (posts d) (posts d') /\
  Forall2 (content_step cids) (post_content d) (post_content d').

Definition content_ids (batch : list Due.t) : list string :=
  flat_map (fun post => map Content.id (Due.post_content post)) batch.

(** Every row of post [pid] has left the status [scheduled]. *)
Definition settled (pid : string) (d : database) : Prop :=
  forall r, In r (posts d) -> Post.id r = pid -> written_status (Post.status r).

(** The events of a run are permitted requests and publish calls for rows
    of the batch with stored accounts. *)
Definition event_of_run (batch : list Due.t) (accounts : list SocialAccount.t)
    (e : event) : Prop :=
  match e with
  | Sent q => permitted batch q
  | _ => called batch accounts e
  end.

(** [x] is one of [l]. *)
Definition among (l : list string) (x : string) : bool :=
  existsb (String.eqb x) l.

(** ** A store with more due posts than one batch takes *)

Module Backlog.

Definition queued (pid : string) : Post.t :=
  Post.Build pid "alice" "Queued" [] (Some 10%Z) scheduled.

Definition ids : list string :=
  ["q01"; "q02"; "q03"; "q04"; "q05"; "q06";
   "q07"; "q08"; "q09"; "q10"; "q11"; "q12"].

Definition store : database :=
  Database (map queued ids) [] [Sample.alice_instagram].

Definition start : world := World store 0 [].

End Backlog.

(** The summary entry of [post]: its id and title, and either counters that
    add up to the number of its content rows or an error. *)
Definition entry_for (post : Due.t) (entry : result_entry) : Prop :=
  match entry with
  | Counted pid t s f =>
      pid = Due.id post /\ t = Due.title post /\
      s + f = length (Due.post_content post)
  | Errored pid t _ => pid = Due.id post /\ t = Due.title post
  end.

(** ** What the deployed per-platform functions allow *)

(** An update of a content row that only sets an error message. *)
Definition error_only (p : content_patch) : Prop :=
  set_published_url p = None /\ set_published_at p = None /\
  exists message, set_error_message p = Some (Some message).

(** The publish fields of every content row are as before. *)
Definition urls_kept (d d' : database) : Prop :=
  Forall2 (fun r r' =>
             PostContent.published_url r' = PostContent.published_url r /\
             PostContent.published_at r' = PostContent.published_at r)
          (post_content d) (post_content d').

(** The requests of a run with functions that always throw: content
    updates only set an error message, and [published] is written only for
    a post of the batch that has no content row. *)
Definition failing_event (batch : list Due.t) (e : event) : Prop :=
  match e with
  | Sent (UpdatePostContent _ p) => error_only p
  | Sent (UpdatePostStatus pid st) =>
      st = publishing \/ st = failed \/
      (st = published /\
       exists post, In post batch /\ Due.id post = pid /\ Due.post_content post = [])
  | _ => True
  end.

(** The entry of a post when nothing can be published. *)
Definition failing_entry (post : Due.t) (entry : result_entry) : Prop :=
  entry = Counted (Due.id post) (Due.title post) 0 (length (Due.post_content post)) \/
  exists e, entry = Errored (Due.id post) (Due.title post) e.

(** * The content optimizer, the second edge function of the file *)

(** The [PlatformOptimization] interface. *)
Module PlatformOptimization.
Record t : Type := Build {
  platform : string;
  content : string;
  hashtags : list string;
  seo_score : Z;
  suggestions : string;
  best_time_to_post : string
}.
End PlatformOptimization.

(** The [OptimizeRequest] interface, as destructured from the request body:
    a field that is absent is [None]. *)
Module OptimizeRequest.
Record t : Type := Build {
  content : option string;
  platforms : option (list string)
}.
End OptimizeRequest.

Module Optimizer.

(** The request sent to the messages API. *)
Record api_call : Type := ApiCall {
  x_api_key : string;
  model : string;
  max_tokens : Z;
  prompt : string
}.

(** What the [fetch] of lines 318-344 gives: it rejects; or the response is
    not ok and reading its text throws or gives the text; or the response is
    ok and reading [content[0].text] of its JSON throws, or gives a string,
    or gives something that is not a string ([None]). *)
Inductive api_answer : Type :=
  | Rejected (message : string)
  | NotOk (text : completion string)
  | Ok (text : completion (option string)).

Definition quote : string := String (ascii_of_nat 34) EmptyString.

(** The character [c] occurs in [s]. *)
Fixpoint occurs (c : ascii) (s : string) : bool :=
  match s with
  | EmptyString => false
  | String c' rest => Ascii.eqb c' c || occurs c rest
  end.

(** Lines 263-271. *)
Definition displayName (p : string) : string :=
  if p =? "instagram" then "Instagram"
  else if p =? "tiktok" then "TikTok"
  else if p =? "facebook" then "Facebook"
  else if p =? "pinterest" then "Pinterest"
  else p.

Definition platformNames (platforms : list string) : string :=
  String.concat ", " (map displayName platforms).

(** Lines 273-297, the template literal. *)
Definition prompt_for (platformNames content : string) : string :=
  String.concat newline
    [
     ("Tu es un expert en marketing sur les réseaux sociaux. Optimise le contenu suivant pour les plateformes: " ++ platformNames ++ ".")%string;
     "";
     "Contenu original:";
     content;
     "";
     "Pour chaque plateforme, fournis:";
     "1. Un texte optimisé adapté aux spécificités de la plateforme";
     "2. 20-30 hashtags pertinents (principaux, de niche, trending, locaux)";
     "3. Un score SEO sur 100";
     "4. Des suggestions d'amélioration";
     "5. Le meilleur moment pour publier";
     "";
     "Réponds UNIQUEMENT avec un JSON valide dans ce format:";
     "{";
     ("  " ++ quote ++ "optimizations" ++ quote ++ ": [")%string;
     "    {";
     ("      " ++ quote ++ "platform" ++ quote ++ ": " ++ quote ++ "instagram" ++ quote ++ ",")%string;
     ("      " ++ quote ++ "content" ++ quote ++ ": " ++ quote ++ "texte optimisé" ++ quote ++ ",")%string;
     ("      " ++ quote ++ "hashtags" ++ quote ++ ": [" ++ quote ++ "#hashtag1" ++ quote ++ ", " ++ quote ++ "#hashtag2" ++ quote ++ ", ...],")%string;
     ("      " ++ quote ++ "seo_score" ++ quote ++ ": 85,")%string;
     ("      " ++ quote ++ "suggestions" ++ quote ++ ": " ++ quote ++ "suggestions d'amélioration" ++ quote ++ ",")%string;
     ("      " ++ quote ++ "best_time_to_post" ++ quote ++ ": " ++ quote ++ "18h-20h en semaine" ++ quote)%string;
     "    }";
     "  ]";
     "}"
    ].

(** The longest prefix of [s] that ends with a closing brace. *)
Fixpoint upto_last_brace (s : string) : option string :=
  match s with
  | EmptyString => None
  | String c rest =>
      match upto_last_brace rest with
      | Some m => Some (String c m)
      | None => if Ascii.eqb c "}" then Some (String c EmptyString) else None
      end
  end.

(** Line 348, [responseText.match(/\{[\s\S]*\}/)]: the match starts at
    the first opening brace that a closing brace follows and, the star
    being greedy, runs to the last closing brace. *)
Fixpoint match_braces (s : string) : option string :=
  match s with
  | EmptyString => None
  | String c rest =>
      if Ascii.eqb c "{" then
        match upto_last_brace rest with
        | Some m => Some (String c m)
        | None => None
        end
      else match_braces rest
  end.

(** Lines 302-309, the entry returned for a platform when there is no key. *)
Definition without_key (content platform : string) : PlatformOptimization.t :=
  PlatformOptimization.Build platform
    (content ++ newline ++ newline
     ++ "[Optimisation IA non disponible - Clé API manquante]")%string
    ["#demo"; "#test"] 0
    "Configurez la clé API Claude pour activer l'optimisation IA"
    "18h-20h".

(** Lines 357-364, the entry returned for a platform when the answer of the
    API cannot be parsed. *)
Definition unparsed (content platform : string) : PlatformOptimization.t :=
  PlatformOptimization.Build platform
    (content ++ newline ++ newline ++ "[Optimisation IA appliquée]")%string
    ["#bijoux"; "#jewelry"; "#handmade"; "#fashion"; "#style"] 75
    "Ajoutez plus d'émojis et d'appels à l'action"
    "18h-20h en semaine".

Section Handler.

(** Parsed JSON values, and [JSON.parse]: [None] when it throws. *)
Variable J : Type.
Variable JSON_parse : string -> option J.

(** [ANTHROPIC_API_KEY], read from the environment when the module loads. *)
Variable ANTHROPIC_API_KEY : option string.

(** The messages API. *)
Variable fetch : api_call -> api_answer.

Inductive reply_body : Type :=
  | Preflight
  | Problem (error : string)
  | Optimizations (optimizations : list PlatformOptimization.t)
  | Parsed (result : J).

Record reply : Type := Reply {
  status : Z;
  body : reply_body
}.

(** The [catch] of lines 375-384. *)
Definition server_error (message : string) : reply :=
  Reply 500 (Problem (if message =? "" then "Erreur serveur" else message)).

(** Lines 346-366: the result built from the text of the answer. *)
Definition result_of (content : string) (platforms : list string)
    (responseText : option string) : reply_body :=
  match responseText with
  | None => Optimizations (map (unparsed content) platforms)
  | Some text =>
      match match_braces text with
      | Some jsonMatch =>
          match JSON_parse jsonMatch with
          | Some result => Parsed result
          | None => Optimizations (map (unparsed content) platforms)
          end
      | None => Optimizations (map (unparsed content) platforms)
      end
  end.

(** Lines 242-385: the handler, as a function of the request method and of
    what reading the request body gives; it returns the response and the
    calls made to the API. *)
Definition serve (method : string) (json : completion OptimizeRequest.t)
    : reply * list api_call :=
  if method =? "OPTIONS" then (Reply 200 Preflight, [])
  else
    match json with
    | Throw message => (server_error message, [])
    | Normal request =>
        match OptimizeRequest.content request, OptimizeRequest.platforms request with
        | Some content, Some platforms =>
            if (content =? "") || Nat.eqb (length platforms) 0 then
              (Reply 400 (Problem "Contenu et plateformes requis"), [])
            else
              let prompt := prompt_for (platformNames platforms) content in
              match ANTHROPIC_API_KEY with
              | None =>
                  (Reply 200 (Optimizations (map (without_key content) platforms)), [])
              | Some key =>
                  if key =? "" then
                    (Reply 200 (Optimizations (map (without_key content) platforms)),
                     [])
                  else
                    let call := ApiCall key "claude-3-5-sonnet-20241022" 4096 prompt in
                    match fetch call with
                    | Rejected message => (server_error message, [call])
                    | NotOk (Throw message) => (server_error message, [call])
                    | NotOk (Normal _) =>
                        (server_error "Erreur lors de l'appel à l'API Claude", [call])
                    | Ok (Throw message) => (server_error message, [call])
                    | Ok (Normal responseText) =>
                        (Reply 200 (result_of content platforms responseText), [call])
                    end
              end
        | _, _ => (Reply 400 (Problem "Contenu et plateformes requis"), [])
        end
    end.

End Handler.

Arguments Preflight {J}.
Arguments Problem {J} error.
Arguments Optimizations {J} optimizations.
Arguments Parsed {J} result.
Arguments Reply {J} status body.
Arguments status {J} r.
Arguments body {J} r.

End Optimizer.

(** A request, a parser and an API on which the optimizer is run. *)
Module OptimizerSample.

Definition request : completion OptimizeRequest.t :=
  Normal (OptimizeRequest.Build (Some "Bague en or") (Some ["instagram"; "mastodon"])).

(** A parser that accepts every text, and one that accepts none. *)
Definition accept (s : string) : option string := Some s.
Definition refuse (s : string) : option string := None.

(** An API that answers with a JSON object wrapped in prose. *)
Definition chatty (c : Optimizer.api_call) : Optimizer.api_answer :=
  Optimizer.Ok (Normal (Some "Voici: {x} fin")).

End OptimizerSample.

(** * The editor of CreatePost.tsx, the caller of the optimizer *)

(** The [PlatformContent] interface. *)
Module PlatformContent.
Record t : Type := Build {
  platform : string;
  content : string;
  hashtags : list string;
  characterLimit : Z
}.
End PlatformContent.

Module CreatePost.

(** The two pieces of component state the platform buttons and the
    optimizer work on.  An event handler reads the state of the render it
    belongs to and its functional updates start from the same state. *)
Record state : Type := State {
  selectedPlatforms : list string;
  platformContent : list PlatformContent.t
}.

(** Lines 18-21, the initial state. *)
Definition initial : state :=
  State ["instagram"] [PlatformContent.Build "instagram" "" [] 2200].

(** Lines 27-32: the ids and the limits of the table of platforms. *)
Definition platforms : list (string * Z) :=
  [("instagram", 2200%Z); ("tiktok", 2200%Z);
   ("facebook", 63206%Z); ("pinterest", 500%Z)].

(** Line 65: [platform?.limit || 2200]. *)
Definition limit_of (platformId : string) : Z :=
  match find (fun p => fst p =? platformId) platforms with
  | Some p => if Z.eqb (snd p) 0 then 2200%Z else snd p
  | None => 2200%Z
  end.

(** Lines 56-68. *)
Definition togglePlatform (platformId : string) (st : state) : state :=
  if existsb (fun id => id =? platformId) (selectedPlatforms st) then
    State (filter (fun id => negb (id =? platformId)) (selectedPlatforms st))
          (filter (fun pc => negb (PlatformContent.platform pc =? platformId))
                  (platformContent st))
  else
    State (selectedPlatforms st ++ [platformId])
          (platformContent st
           ++ [PlatformContent.Build platformId "" [] (limit_of platformId)]).

(** Lines 70-74. *)
Definition updatePlatformContent (platform content : string) (st : state) : state :=
  State (selectedPlatforms st)
        (map (fun pc =>
                if PlatformContent.platform pc =? platform then
                  PlatformContent.Build (PlatformContent.platform pc) content
                    (PlatformContent.hashtags pc) (PlatformContent.characterLimit pc)
                else pc)
             (platformContent st)).

(** Lines 100-111: the update applied to the content once the optimizer
    has answered. *)
Definition applyOptimizations (optimizations : list PlatformOptimization.t)
    (prev : list PlatformContent.t) : list PlatformContent.t :=
  map (fun pc =>
         match find (fun o => PlatformOptimization.platform o
                              =? PlatformContent.platform pc) optimizations with
         | Some optimized =>
             PlatformContent.Build (PlatformContent.platform pc)
               (PlatformOptimization.content optimized)
               (PlatformOptimization.hashtags optimized)
               (PlatformContent.characterLimit pc)
         | None => pc
         end)
      prev.

(** What a click on the optimize button ends in. *)
Inductive outcome : Type :=
  | Alerted (message : string)
  | Applied (st : state)
  | Thrown.

Section Optimize.

Variable J : Type.

(** [content.trim()] is empty. *)
Variable blank : string -> bool.

(** The optimizer behind [fetch]: [None] when the fetch rejects. *)
Variable endpoint : OptimizeRequest.t -> option (Optimizer.reply J).

(** The [optimizations] of a parsed answer, as the callback of line 102
    uses them: [None] when [result.optimizations.find] throws. *)
Variable optimizations_of : J -> option (list PlatformOptimization.t).

(** Lines 76-118.  [st] is the state of the render the click belongs to:
    the guard and the body of the request read it.  The handler then awaits
    the answer, with the platform buttons and the text fields enabled
    meanwhile, and [later] is the state when the answer is there: the
    functional update of line 100 starts from it.  An alert leaves the
    state as it is.  The callback of the update runs when React processes
    the update, outside the [try]: what it throws is not caught by line
    112. *)
Definition optimizeWithAI (st later : state) : outcome :=
  match platformContent st with
  | [] => Alerted "Veuillez entrer du contenu à optimiser"
  | first :: _ =>
      if blank (PlatformContent.content first) then
        Alerted "Veuillez entrer du contenu à optimiser"
      else
        let failed := Alerted "Erreur lors de l'optimisation IA" in
        match endpoint (OptimizeRequest.Build
                          (Some (PlatformContent.content first))
                          (Some (selectedPlatforms st))) with
        | None => failed
        | Some response =>
            if (200 <=? Optimizer.status response)%Z
               && (Optimizer.status response <=? 299)%Z then
              match Optimizer.body response with
              | Optimizer.Optimizations optimizations =>
                  Applied (State (selectedPlatforms later)
                             (applyOptimizations optimizations
                                (platformContent later)))
              | Optimizer.Parsed result =>
                  match optimizations_of result, platformContent later with
                  | Some optimizations, _ =>
                      Applied (State (selectedPlatforms later)
                                 (applyOptimizations optimizations
                                    (platformContent later)))
                  | None, [] => Applied later
                  | None, _ :: _ => Thrown
                  end
              | Optimizer.Preflight | Optimizer.Problem _ => failed
              end
            else failed
        end
  end.

End Optimize.

(** Lines 198-203 of [handleSave]: the state after a successful save.  The
    content goes back to its initial value; the selection is not among the
    pieces of state that are reset. *)
Definition resetAfterSave (st : state) : state :=
  State (selectedPlatforms st)
        [PlatformContent.Build "instagram" "" [] 2200].

(** What changes the two pieces of state: a click on a platform button, an
    input in a text field, the answer of the optimizer, and a successful
    save. *)
Inductive action : Type :=
  | Toggle (platformId : string)
  | Update (platform content : string)
  | Optimized (optimizations : list PlatformOptimization.t)
  | Saved.

Definition act (a : action) (st : state) : state :=
  match a with
  | Toggle platformId => togglePlatform platformId st
  | Update platform content => updatePlatformContent platform content st
  | Optimized optimizations =>
      State (selectedPlatforms st)
            (applyOptimizations optimizations (platformContent st))
  | Saved => resetAfterSave st
  end.

(** The state a history of actions leads to, the oldest action first. *)
Definition run (history : list action) (st : state) : state :=
  fold_left (fun st a => act a st) history st.

Definition after (history : list action) : state := run history initial.

(** The states the component can be in. *)
Definition reachable (st : state) : Prop :=
  exists history, st = after history.

(** No successful save is part of [history]. *)
Definition unsaved (history : list action) : bool :=
  forallb (fun a => match a with Saved => false | _ => true end) history.

(** What the optimizer's own entries do to an entry of the editor: [text]
    and [tags] replace the text and the hashtags of an entry whose platform
    is one of [selected]. *)
Definition overwrite (selected : list string) (text : string)
    (tags : list string) (pc : PlatformContent.t) : PlatformContent.t :=
  if among selected (PlatformContent.platform pc) then
    PlatformContent.Build (PlatformContent.platform pc) text tags
      (PlatformContent.characterLimit pc)
  else pc.

End CreatePost.

(** * Facts about the tables *)

Lemma stored_status_update (pid pid' : string) (st : post_status) (d : database) :
  stored_status (update_post_status pid st d) pid' =
  if pid' =? pid then option_map (fun _ => st) (stored_status d pid')
  else stored_status d pid'.
Proof.
  unfold stored_status, update_post_status; simpl.
  induction (posts d) as [|r rows IH]; simpl.
  - now destruct (pid' =? pid).
  - destruct (Post.id r =? pid) eqn:Er; simpl;
      destruct (Post.id r =? pid') eqn:Er'; simpl; auto.
    + apply String.eqb_eq in Er, Er'. subst pid pid'.
      now rewrite String.eqb_refl.
    + apply String.eqb_eq in Er'. subst pid'. now rewrite Er.
Qed.

Lemma stored_status_update_same (pid : string) (st : post_status) (d : database) :
  stored_status d pid <> None ->
  stored_status (update_post_status pid st d) pid = Some st.
Proof.
  intros H. rewrite stored_status_update, String.eqb_refl.
  destruct (stored_status d pid); [reflexivity | contradiction].
Qed.

Lemma stored_status_update_defined (pid pid' : string) (st : post_status)
    (d : database) :
  stored_status d pid' <> None ->
  stored_status (update_post_status pid st d) pid' <> None.
Proof.
  intros H. rewrite stored_status_update.
  destruct (pid' =? pid); [|exact H].
  destruct (stored_status d pid'); [discriminate | contradiction].
Qed.

Lemma stored_status_same_posts (d d' : database) (pid : string) :
  posts d' = posts d -> stored_status d' pid = stored_status d pid.
Proof. unfold stored_status. now intros ->. Qed.

Lemma stored_content_update (cid cid' : string) (p : content_patch) (d : database) :
  stored_content (update_post_content cid p d) cid' =
  if cid' =? cid then option_map (apply_patch p) (stored_content d cid')
  else stored_content d cid'.
Proof.
  unfold stored_content, update_post_content; simpl.
  induction (post_content d) as [|r rows IH]; simpl.
  - now destruct (cid' =? cid).
  - destruct (PostContent.id r =? cid) eqn:Er; simpl;
      destruct (PostContent.id r =? cid') eqn:Er'; simpl; auto.
    + apply String.eqb_eq in Er, Er'. subst cid cid'.
      now rewrite String.eqb_refl.
    + apply String.eqb_eq in Er'. subst cid'. now rewrite Er.
Qed.

Lemma stored_content_update_same (cid : string) (p : content_patch) (d : database) :
  stored_content (update_post_content cid p d) cid =
  option_map (apply_patch p) (stored_content d cid).
Proof. now rewrite stored_content_update, String.eqb_refl. Qed.

Lemma is_due_spec (now : timestamp) (r : Post.t) :
  is_due now r = true <->
  Post.status r = scheduled /\
  exists t, Post.scheduled_for r = Some t /\ (t <= now)%Z.
Proof.
  unfold is_due. rewrite andb_true_iff. split.
  - intros [Hs Ht]. split.
    + now destruct (Post.status r).
    + destruct (Post.scheduled_for r) as [t|]; [|discriminate].
      exists t. split; [reflexivity | now apply Z.leb_le].
  - intros [Hs (t & Ht & Hle)]. rewrite Hs, Ht. split; [reflexivity|].
    now apply Z.leb_le.
Qed.

Lemma In_firstn {A : Type} (n : nat) (l : list A) (x : A) :
  In x (firstn n l) -> In x l.
Proof.
  intros H. rewrite <- (firstn_skipn n l). apply in_or_app. now left.
Qed.

Lemma due_rows_due (now : timestamp) (d : database) (r : Post.t) :
  In r (due_rows now d) -> In r (posts d) /\ is_due now r = true.
Proof.
  unfold due_rows. intros H. apply In_firstn in H.
  now apply filter_In in H.
Qed.

Lemma due_rows_length (now : timestamp) (d : database) :
  length (due_rows now d) =
  Nat.min batch_limit (length (filter (is_due now) (posts d))).
Proof. unfold due_rows. apply length_firstn. Qed.

Lemma find_active_account (uid platform : string) (d : database) (a : SocialAccount.t) :
  In a (social_accounts d) ->
  SocialAccount.user_id a = uid ->
  SocialAccount.is_active a = true ->
  SocialAccount.platform a = platform ->
  exists account,
    findAccount (Some (select_active_accounts uid d)) platform = Some account /\
    In account (social_accounts d) /\
    SocialAccount.user_id account = uid /\
    SocialAccount.is_active account = true /\
    SocialAccount.platform account = platform.
Proof.
  intros Hin Hu Ha Hp. simpl.
  destruct (find (fun acc => SocialAccount.platform acc =? platform)
                 (select_active_accounts uid d)) as [account|] eqn:E.
  - exists account. split; [reflexivity|].
    apply find_some in E. destruct E as [Hsel Hpl].
    apply filter_In in Hsel. destruct Hsel as [Hin' Hc].
    apply andb_true_iff in Hc. destruct Hc as [Hu' Ha'].
    apply String.eqb_eq in Hu', Hpl. auto.
  - exfalso.
    assert (Hsel : In a (select_active_accounts uid d)).
    { apply filter_In. split; [assumption|].
      rewrite Ha, andb_true_r. now apply String.eqb_eq. }
    apply (find_none _ _ E) in Hsel. simpl in Hsel.
    apply String.eqb_neq in Hsel. contradiction.
Qed.

Lemma no_active_account (uid platform : string) (d : database)
    (socialAccounts : option (list SocialAccount.t)) :
  (forall accounts, socialAccounts = Some accounts ->
                    accounts = select_active_accounts uid d) ->
  (forall a, In a (social_accounts d) ->
             SocialAccount.user_id a = uid ->
             SocialAccount.is_active a = true ->
             SocialAccount.platform a <> platform) ->
  findAccount socialAccounts platform = None.
Proof.
  intros Hsel Hno. destruct socialAccounts as [accounts|]; [|reflexivity].
  rewrite (Hsel accounts eq_refl). simpl.
  destruct (find _ _) as [account|] eqn:E; [|reflexivity].
  exfalso. apply find_some in E. destruct E as [Hin Hpl].
  apply filter_In in Hin. destruct Hin as [Hin Hc].
  apply andb_true_iff in Hc. destruct Hc as [Hu Ha].
  apply String.eqb_eq in Hu, Hpl. exact (Hno account Hin Hu Ha Hpl).
Qed.

(** * How the pieces of the handler run *)

Section Runs.

Variable env : environment.
Variable api : variant_name -> publisher.

(** The world after request [q] was sent from world [w]. *)
Lemma update_run (q : request) (w : world) :
  update env q w =
  (Normal (Reply None (fault env (length (trace w)) q)),
   World (match fault env (length (trace w)) q with
          | Some _ => db w
          | None => effect q (db w)
          end) (ticks w) (trace w ++ [Sent q])).
Proof. unfold update. now destruct (fault env (length (trace w)) q). Qed.

Lemma update_trace (q : request) (w : world) :
  trace (snd (update env q w)) = trace w ++ [Sent q].
Proof. now rewrite update_run. Qed.

Lemma update_ticks (q : request) (w : world) :
  ticks (snd (update env q w)) = ticks w.
Proof. now rewrite update_run. Qed.

Lemma update_accepted (q : request) (w : world) :
  fault env (length (trace w)) q = None ->
  db (snd (update env q w)) = effect q (db w).
Proof. intros H. rewrite update_run. simpl. now rewrite H. Qed.

Lemma update_refused (q : request) (w : world) (e : string) :
  fault env (length (trace w)) q = Some e ->
  db (snd (update env q w)) = db w.
Proof. intros H. rewrite update_run. simpl. now rewrite H. Qed.

Lemma update_content_posts (cid : string) (p : content_patch) (w : world) :
  posts (db (snd (update env (UpdatePostContent cid p) w))) = posts (db w) /\
  social_accounts (db (snd (update env (UpdatePostContent cid p) w))) =
    social_accounts (db w).
Proof.
  rewrite update_run. simpl.
  now destruct (fault env (length (trace w)) (UpdatePostContent cid p)).
Qed.

Lemma publishToSocialMedia_run (platform content : string)
    (hashtags : option (list string)) (mediaIds : list string)
    (account : SocialAccount.t) (w : world) :
  publishToSocialMedia api platform content hashtags mediaIds account w =
  match hashtags with
  | None =>
      (Throw null_join,
       World (db w) (ticks w)
             (trace w ++ [Publish platform content hashtags mediaIds account]))
  | Some tags =>
      match variant_of platform with
      | Some v =>
          (api v (fullContent content tags) mediaIds account,
           World (db w) (ticks w)
                 (trace w ++ [Publish platform content hashtags mediaIds account;
                              Variant v (fullContent content tags) mediaIds
                                      account]))
      | None =>
          (Throw (unsupported platform),
           World (db w) (ticks w)
                 (trace w ++ [Publish platform content hashtags mediaIds account]))
      end
  end.
Proof.
  unfold publishToSocialMedia, call, bind, record, throw. simpl.
  destruct hashtags as [tags|]; [|reflexivity].
  destruct (variant_of platform) as [v|]; simpl; [|reflexivity].
  rewrite <- app_assoc. reflexivity.
Qed.

(** The inner loop body, case by case. *)
Lemma publishContent_run (post : Due.t)
    (socialAccounts : option (list SocialAccount.t)) (s f : nat)
    (content : Content.t) (w : world) :
  publishContent env api post socialAccounts (s, f) content w =
  match findAccount socialAccounts (Content.platform content) with
  | None =>
      (Normal (s, S f),
       snd (update env (UpdatePostContent (Content.id content)
                          (Patch None None (Some (Some not_connected)))) w))
  | Some account =>
      match publishToSocialMedia api (Content.platform content)
              (Content.content_text content) (Content.hashtags content)
              (Due.media_ids post) account w with
      | (Normal url, w1) =>
          (Normal (S s, f),
           snd (update env
                  (UpdatePostContent (Content.id content)
                     (Patch (Some (Some url))
                            (Some (Some (clock env (ticks w1)))) (Some None)))
                  (World (db w1) (S (ticks w1)) (trace w1))))
      | (Throw message, w1) =>
          (Normal (s, S f),
           snd (update env (UpdatePostContent (Content.id content)
                              (Patch None None (Some (Some message)))) w1))
      end
  end.
Proof.
  unfold publishContent.
  destruct (findAccount socialAccounts (Content.platform content)) as [account|].
  - unfold try_catch, bind at 1.
    destruct (publishToSocialMedia _ _ _ _ _ _ w) as [[url|message] w1].
    + unfold bind, new_Date, ret. now rewrite update_run.
    + unfold bind, ret. now rewrite update_run.
  - unfold bind, ret. now rewrite update_run.
Qed.

(** A row always completes, counts once, and leaves the posts and the
    accounts as they were. *)
Lemma publishContent_sound (post : Due.t)
    (socialAccounts : option (list SocialAccount.t)) (s f : nat)
    (content : Content.t) (w : world) :
  exists s' f' w' evs,
    publishContent env api post socialAccounts (s, f) content w =
      (Normal (s', f'), w') /\
    s' + f' = S (s + f) /\
    posts (db w') = posts (db w) /\
    social_accounts (db w') = social_accounts (db w) /\
    trace w' = trace w ++ evs.
Proof.
  rewrite publishContent_run.
  destruct (findAccount socialAccounts (Content.platform content)) as [account|].
  - rewrite publishToSocialMedia_run.
    destruct (Content.hashtags content) as [tags|];
      [destruct (variant_of (Content.platform content)) as [v|]|].
    + destruct (api v _ _ account) as [url|message];
        eexists _, _, _, _; (split; [reflexivity|]);
        rewrite update_trace;
        match goal with
        | |- context [update env ?q ?w0] =>
            destruct (update_content_posts
                        (Content.id content)
                        (match q with UpdatePostContent _ p => p
                                 | _ => Patch None None None end) w0)
              as [Hp Ha]
        end; simpl in Hp, Ha |- *; rewrite Hp, Ha;
        (split; [lia|]); (split; [reflexivity|]); (split; [reflexivity|]);
        rewrite <- app_assoc; reflexivity.
    + eexists _, _, _, _. split; [reflexivity|].
      rewrite update_trace.
      match goal with
      | |- context [update env (UpdatePostContent ?c ?p) ?w0] =>
          destruct (update_content_posts c p w0) as [Hp Ha]
      end. simpl in Hp, Ha |- *. rewrite Hp, Ha.
      split; [lia|]. split; [reflexivity|]. split; [reflexivity|].
      rewrite <- app_assoc; reflexivity.
    + eexists _, _, _, _. split; [reflexivity|].
      rewrite update_trace.
      match goal with
      | |- context [update env (UpdatePostContent ?c ?p) ?w0] =>
          destruct (update_content_posts c p w0) as [Hp Ha]
      end. simpl in Hp, Ha |- *. rewrite Hp, Ha.
      split; [lia|]. split; [reflexivity|]. split; [reflexivity|].
      rewrite <- app_assoc; reflexivity.
  - eexists _, _, _, _. split; [reflexivity|].
    rewrite update_trace.
    match goal with
    | |- context [update env (UpdatePostContent ?c ?p) ?w0] =>
        destruct (update_content_posts c p w0) as [Hp Ha]
    end. rewrite Hp, Ha.
    split; [lia|]. split; [reflexivity|]. split; reflexivity.
Qed.

End Runs.

Section PostRuns.

Variable env : environment.
Variable api : variant_name -> publisher.

Lemma ask_run {A : Type} (q : request) (rows : database -> A) (w : world) :
  ask env q rows w =
  (Normal (match fault env (length (trace w)) q with
           | Some e => Reply None (Some e)
           | None => Reply (Some (rows (db w))) None
           end),
   World (db w) (ticks w) (trace w ++ [Sent q])).
Proof. unfold ask. now destruct (fault env (length (trace w)) q). Qed.

(** The loop goes on with the next row from the world the row left. *)
Lemma publishContents_cons (post : Due.t)
    (socialAccounts : option (list SocialAccount.t)) (counts counts1 : nat * nat)
    (content : Content.t) (rest : list Content.t) (w w1 : world) :
  publishContent env api post socialAccounts counts content w =
    (Normal counts1, w1) ->
  publishContents env api post socialAccounts counts (content :: rest) w =
  publishContents env api post socialAccounts counts1 rest w1.
Proof. intros H. simpl. unfold bind. now rewrite H. Qed.

Lemma publishContents_sound (post : Due.t)
    (socialAccounts : option (list SocialAccount.t)) (rows : list Content.t) :
  forall (s f : nat) (w : world),
  exists s' f' w' evs,
    publishContents env api post socialAccounts (s, f) rows w =
      (Normal (s', f'), w') /\
    s' + f' = s + f + length rows /\
    posts (db w') = posts (db w) /\
    social_accounts (db w') = social_accounts (db w) /\
    trace w' = trace w ++ evs /\
    Forall (fun e => forall pid st, e <> Sent (UpdatePostStatus pid st)) evs.
Proof.
  induction rows as [|content rest IH]; intros s f w.
  - exists s, f, w, []. simpl. unfold ret. rewrite app_nil_r.
    split; [reflexivity|]. split; [lia|]. repeat split. constructor.
  - destruct (publishContent_sound env api post socialAccounts s f content w)
      as (s1 & f1 & w1 & evs1 & Hrun & Hsum & Hp & Ha & Ht).
    rewrite (publishContents_cons _ _ _ _ _ rest _ _ Hrun).
    destruct (IH s1 f1 w1) as (s2 & f2 & w2 & evs2 & Hrun2 & Hsum2 & Hp2 & Ha2 & Ht2 & Hw2).
    exists s2, f2, w2, (evs1 ++ evs2).
    split; [exact Hrun2|]. split; [simpl; lia|].
    split; [congruence|]. split; [congruence|].
    split; [rewrite Ht2, Ht; now rewrite app_assoc|].
    apply Forall_app. split; [|exact Hw2].
    clear - Hrun Ht.
    rewrite publishContent_run in Hrun.
    destruct (findAccount socialAccounts (Content.platform content)).
    + rewrite publishToSocialMedia_run in Hrun.
      destruct (Content.hashtags content) as [tags|];
        [destruct (variant_of (Content.platform content)) as [v|]|].
      * destruct (api v _ _ _); inversion Hrun; subst; clear Hrun;
          rewrite update_trace in Ht; simpl in Ht;
          rewrite <- app_assoc in Ht; apply app_inv_head in Ht; subst evs1;
          repeat constructor; intros; discriminate.
      * inversion Hrun; subst; clear Hrun.
        rewrite update_trace in Ht; simpl in Ht.
        rewrite <- app_assoc in Ht; apply app_inv_head in Ht; subst evs1.
        repeat constructor; intros; discriminate.
      * inversion Hrun; subst; clear Hrun.
        rewrite update_trace in Ht; simpl in Ht.
        rewrite <- app_assoc in Ht; apply app_inv_head in Ht; subst evs1.
        repeat constructor; intros; discriminate.
    + inversion Hrun; subst; clear Hrun.
      rewrite update_trace in Ht. apply app_inv_head in Ht; subst evs1.
      repeat constructor; intros; discriminate.
Qed.

(** With no list of accounts every row is counted as failed and nothing
    is published. *)
Lemma publishContents_without_accounts (post : Due.t) (rows : list Content.t) :
  forall (s f : nat) (w : world),
  exists w' evs,
    publishContents env api post None (s, f) rows w =
      (Normal (s, f + length rows), w') /\
    trace w' = trace w ++ evs /\
    Forall (fun e => is_publish e = false) evs /\
    map (fun e => Some e) evs =
      map (fun c => Some (Sent (UpdatePostContent (Content.id c)
                                  (Patch None None (Some (Some not_connected))))))
          rows.
Proof.
  induction rows as [|content rest IH]; intros s f w.
  - exists w, []. simpl. unfold ret. rewrite Nat.add_0_r, app_nil_r.
    repeat split. constructor.
  - assert (Hrun := publishContent_run env api post None s f content w).
    change (findAccount None (Content.platform content))
      with (@None SocialAccount.t) in Hrun.
    cbv beta iota in Hrun.
    rewrite (publishContents_cons _ _ _ _ _ rest _ _ Hrun).
    match type of Hrun with _ = (_, ?w0) => set (w1 := w0) in * end.
    destruct (IH s (S f) w1) as (w2 & evs & Hrun2 & Ht2 & Hev & Hmap).
    exists w2, (Sent (UpdatePostContent (Content.id content)
                       (Patch None None (Some (Some not_connected)))) :: evs).
    split; [rewrite Hrun2; simpl; do 3 f_equal; lia|].
    split.
    + rewrite Ht2. unfold w1. rewrite update_trace, <- app_assoc. reflexivity.
    + split; [constructor; [reflexivity | exact Hev]|].
      simpl. now rewrite Hmap.
Qed.

End PostRuns.

Section BatchRuns.

Variable env : environment.
Variable api : variant_name -> publisher.

(** Step 1 refused: the [try] block throws the error of the update. *)
Lemma publishPost_refused (post : Due.t) (w : world) (e : string) :
  fault env (length (trace w)) (UpdatePostStatus (Due.id post) publishing) =
    Some e ->
  publishPost env api post w =
  (Throw e,
   World (db w) (ticks w)
         (trace w ++ [Sent (UpdatePostStatus (Due.id post) publishing)])).
Proof.
  intros H. unfold publishPost, bind. rewrite update_run, H. reflexivity.
Qed.

(** Step 1 accepted: the accounts are fetched, the rows are processed and
    the final status is written. *)
Lemma publishPost_accepted (post : Due.t) (w : world) :
  fault env (length (trace w)) (UpdatePostStatus (Due.id post) publishing) =
    None ->
  publishPost env api post w =
  let w1 := World (update_post_status (Due.id post) publishing (db w)) (ticks w)
                  (trace w ++ [Sent (UpdatePostStatus (Due.id post) publishing)]) in
  let socialAccounts :=
    match fault env (length (trace w1)) (SelectActiveAccounts (Due.user_id post)) with
    | Some _ => None
    | None => Some (select_active_accounts (Due.user_id post) (db w1))
    end in
  let w2 := World (db w1) (ticks w1)
                  (trace w1 ++ [Sent (SelectActiveAccounts (Due.user_id post))]) in
  match publishContents env api post socialAccounts (0, 0)
          (Due.post_content post) w2 with
  | (Normal counts, w3) =>
      (Normal (Counted (Due.id post) (Due.title post) (fst counts) (snd counts)),
       snd (update env (UpdatePostStatus (Due.id post)
                          (finalStatus (fst counts) (snd counts))) w3))
  | (Throw message, w3) => (Throw message, w3)
  end.
Proof.
  intros H. unfold publishPost, bind at 1. rewrite update_run, H.
  cbn [error]. unfold bind at 1. rewrite ask_run.
  cbn [db ticks trace effect]. cbv zeta.
  destruct (fault env _ (SelectActiveAccounts (Due.user_id post))); cbn [data];
    unfold bind at 1;
    destruct (publishContents _ _ _ _ _ _ _) as [[counts|message] w3];
    try reflexivity;
    unfold bind, ret; now rewrite update_run.
Qed.

(** In this model the [try] block throws only when step 1 is refused. *)
Lemma publishPost_throws (post : Due.t) (w wt : world) (message : string) :
  publishPost env api post w = (Throw message, wt) ->
  fault env (length (trace w)) (UpdatePostStatus (Due.id post) publishing) =
    Some message.
Proof.
  intros H.
  destruct (fault env (length (trace w))
              (UpdatePostStatus (Due.id post) publishing)) as [e|] eqn:Hf.
  - rewrite (publishPost_refused post w e Hf) in H. now inversion H.
  - rewrite (publishPost_accepted post w Hf) in H. cbv zeta in H.
    match type of H with
    | context [publishContents env api post ?a (0, 0) ?rows ?w2] =>
        destruct (publishContents_sound env api post a rows 0 0 w2)
          as (s & f & w3 & evs & Hrun & _)
    end.
    rewrite Hrun in H. discriminate H.
Qed.

(** What one turn of the outer loop always does. *)
Lemma processPost_sound (post : Due.t) (w : world) :
  exists entry w' evs,
    processPost env api post w = (Normal entry, w') /\
    entry_post_id entry = Due.id post /\
    trace w' = trace w ++ Sent (UpdatePostStatus (Due.id post) publishing) :: evs /\
    Forall (fun e => forall pid st,
              e = Sent (UpdatePostStatus pid st) -> pid = Due.id post) evs.
Proof.
  unfold processPost, try_catch.
  destruct (fault env (length (trace w))
              (UpdatePostStatus (Due.id post) publishing)) as [e|] eqn:Hf.
  - rewrite (publishPost_refused post w e Hf). unfold bind, ret.
    rewrite update_run. simpl.
    eexists _, _, _. split; [reflexivity|]. split; [reflexivity|].
    rewrite <- app_assoc. split; [reflexivity|].
    constructor; [|constructor]. intros pid st Heq. now inversion Heq.
  - rewrite (publishPost_accepted post w Hf). cbv zeta.
    match goal with
    | |- context [publishContents env api post ?a (0, 0) ?rows ?w2] =>
        destruct (publishContents_sound env api post a rows 0 0 w2)
          as (s & f & w3 & evs & Hrun & _ & _ & _ & Ht & Hev)
    end.
    rewrite Hrun. eexists _, _, _. split; [reflexivity|].
    split; [reflexivity|].
    rewrite update_trace, Ht. simpl. rewrite <- !app_assoc. simpl.
    split; [reflexivity|].
    constructor; [intros ? ? Heq; discriminate|].
    apply Forall_app. split.
    + eapply Forall_impl; [|exact Hev]. simpl. intros e He pid st Heq.
      exfalso. exact (He pid st Heq).
    + constructor; [|constructor]. intros pid st Heq. now inversion Heq.
Qed.

Lemma processPosts_cons (post : Due.t) (rest : list Due.t)
    (entry : result_entry) (w w1 : world) :
  processPost env api post w = (Normal entry, w1) ->
  processPosts env api (post :: rest) w =
  match processPosts env api rest w1 with
  | (Normal results, w2) => (Normal (entry :: results), w2)
  | (Throw message, w2) => (Throw message, w2)
  end.
Proof. intros H. simpl. unfold bind at 1. rewrite H. reflexivity. Qed.

(** The outer loop visits every post of the batch, in order, whatever
    happened to the posts before it. *)
Lemma processPosts_sound (batch : list Due.t) :
  forall w : world,
  exists results w' evs,
    processPosts env api batch w = (Normal results, w') /\
    map entry_post_id results = map Due.id batch /\
    trace w' = trace w ++ evs /\
    (forall q, In q batch ->
               In (Sent (UpdatePostStatus (Due.id q) publishing)) evs) /\
    Forall (fun e => forall pid st,
              e = Sent (UpdatePostStatus pid st) -> In pid (map Due.id batch))
           evs.
Proof.
  induction batch as [|post rest IH]; intros w.
  - exists [], w, []. simpl. unfold ret. rewrite app_nil_r.
    repeat split; [contradiction | constructor].
  - destruct (processPost_sound post w) as (entry & w1 & evs1 & Hrun & Hid & Ht & Hev).
    destruct (IH w1) as (results & w2 & evs2 & Hrun2 & Hids & Ht2 & Hall & Hev2).
    rewrite (processPosts_cons post rest entry w w1 Hrun), Hrun2.
    exists (entry :: results), w2,
      (Sent (UpdatePostStatus (Due.id post) publishing) :: evs1 ++ evs2).
    split; [reflexivity|]. split; [simpl; congruence|].
    split; [rewrite Ht2, Ht, <- app_assoc; reflexivity|].
    split.
    + intros q [Hq|Hq].
      * subst q. now left.
      * right. apply in_or_app. right. now apply Hall.
    + constructor.
      * intros pid st Heq. inversion Heq. now left.
      * apply Forall_app. split.
        -- eapply Forall_impl; [|exact Hev]. simpl. intros e He pid st Heq.
           left. symmetry. exact (He pid st Heq).
        -- eapply Forall_impl; [|exact Hev2]. simpl. intros e He pid st Heq.
           right. exact (He pid st Heq).
Qed.


(** The handler, case by case. *)
Lemma serve_run (method : string) (w : world) :
  serve env api method w =
  if method =? "OPTIONS" then (Response 200 NoBody, w)
  else
    let now := clock env (ticks w) in
    let w1 := World (db w) (S (ticks w)) (trace w ++ [Sent (SelectDuePosts now)]) in
    match fault env (length (trace w)) (SelectDuePosts now) with
    | Some e =>
        (Response 500 (Failure (if e =? "" then "Erreur serveur" else e)), w1)
    | None =>
        match select_due_posts now (db w) with
        | [] => (nothing_to_publish, w1)
        | batch =>
            match processPosts env api batch w1 with
            | (Normal results, w2) =>
                (Response 200
                   (Finished "Publication terminée" (length batch) results), w2)
            | (Throw message, w2) =>
                (Response 500
                   (Failure (if message =? "" then "Erreur serveur" else message)),
                 w2)
            end
        end
    end.
Proof.
  unfold serve. destruct (method =? "OPTIONS"); [reflexivity|].
  unfold bind at 1. unfold new_Date at 1. unfold bind at 1. rewrite ask_run.
  cbn [db ticks trace]. cbv zeta.
  destruct (fault env (length (trace w)) (SelectDuePosts (clock env (ticks w))))
    as [e|]; cbn [error data]; [reflexivity|].
  destruct (select_due_posts (clock env (ticks w)) (db w)) as [|p batch];
    [reflexivity|].
  unfold bind, ret.
  now destruct (processPosts env api (p :: batch) _) as [[results|message] w2].
Qed.

End BatchRuns.

(** * The claims *)


Lemma content_written (env : environment) (cid : string) (p : content_patch)
    (w : world) (r : PostContent.t) :
  fault env (length (trace w)) (UpdatePostContent cid p) = None ->
  stored_content (db w) cid = Some r ->
  stored_content (db (snd (update env (UpdatePostContent cid p) w))) cid =
    Some (apply_patch p r).
Proof.
  intros Hf Hr. rewrite (update_accepted env _ w Hf). simpl effect.
  now rewrite stored_content_update_same, Hr.
Qed.

Lemma variant_of_none (platform : string) :
  platform <> "instagram" -> platform <> "facebook" ->
  platform <> "tiktok" -> platform <> "pinterest" ->
  variant_of platform = None.
Proof.
  intros H1 H2 H3 H4. unfold variant_of.
  apply String.eqb_neq in H1, H2, H3, H4. now rewrite H1, H2, H3, H4.
Qed.



(** C2. When none of the owner's active accounts in the store is for the
    platform of a content row, the turn of the inner loop for that row sends
    one request and nothing else: the update that sets the row's
    [error_message] to "Compte non connecté".  No publish function is
    called, the failure counter grows by one, the success counter stays, and
    the loop goes on with the next row.  When the store accepts the update,
    the stored row carries that message and keeps its publish fields. *)
Theorem C2_account_not_connected (env : environment)
    (api : variant_name -> publisher) (post : Due.t) (d : database)
    (socialAccounts : option (list SocialAccount.t)) (s f : nat)
    (content : Content.t) (rest : list Content.t) (w : world) :
  (forall accounts, socialAccounts = Some accounts ->
                    accounts = select_active_accounts (Due.user_id post) d) ->
  (forall a, In a (social_accounts d) ->
             SocialAccount.user_id a = Due.user_id post ->
             SocialAccount.is_active a = true ->
             SocialAccount.platform a <> Content.platform content) ->
  let q := UpdatePostContent (Content.id content)
             (Patch None None (Some (Some "Compte non connecté"))) in
  exists w' : world,
    publishContent env api post socialAccounts (s, f) content w =
      (Normal (s, S f), w') /\
    trace w' = trace w ++ [Sent q] /\
    Forall (fun e => is_publish e = false) (skipn (length (trace w)) (trace w')) /\
    ticks w' = ticks w /\
    (fault env (length (trace w)) q = None ->
     forall r, stored_content (db w) (Content.id content) = Some r ->
     exists r',
       stored_content (db w') (Content.id content) = Some r' /\
       PostContent.error_message r' = Some "Compte non connecté" /\
       PostContent.published_url r' = PostContent.published_url r /\
       PostContent.published_at r' = PostContent.published_at r) /\
    publishContents env api post socialAccounts (s, f) (content :: rest) w =
    publishContents env api post socialAccounts (s, S f) rest w'.
Proof.
  intros Hsel Hno q.
  assert (Hfind := no_active_account (Due.user_id post)
                     (Content.platform content) d socialAccounts Hsel Hno).
  assert (Hrun := publishContent_run env api post socialAccounts s f content w).
  rewrite Hfind in Hrun. fold q in Hrun. change not_connected with "Compte non connecté" in Hrun.
  exists (snd (update env q w)).
  split; [exact Hrun|]. split; [apply update_trace|].
  split.
  { rewrite update_trace, skipn_app, skipn_all, Nat.sub_diag. simpl.
    constructor; [reflexivity | constructor]. }
  split; [apply update_ticks|]. split.
  - intros Hf r Hr. exists (apply_patch (Patch None None (Some (Some "Compte non connecté"))) r).
    split; [now apply content_written|]. repeat split.
  - now apply publishContents_cons.
Qed.

Lemma C2_account_not_connected_witness :
  exists w' : world,
    publishContent Sample.quiet Sample.working_api Sample.due_launch
      Sample.alice_accounts (1, 0) Sample.row_facebook Sample.start =
      (Normal (1, 1), w') /\
    trace w' =
      [Sent (UpdatePostContent "c2"
               (Patch None None (Some (Some "Compte non connecté"))))] /\
    option_map PostContent.error_message (stored_content (db w') "c2") =
      Some (Some "Compte non connecté").
Proof.
  destruct (C2_account_not_connected Sample.quiet Sample.working_api
              Sample.due_launch Sample.store Sample.alice_accounts
              1 0 Sample.row_facebook [] Sample.start)
    as (w' & Hrun & Ht & _ & _ & Hrow & _).
  - intros accounts H. inversion H. reflexivity.
  - intros a [<-|[<-|[<-|[]]]]; simpl; intros; discriminate.
  - exists w'. split; [exact Hrun|]. split; [exact Ht|].
    destruct (Hrow eq_refl Sample.launch_facebook eq_refl) as (r' & Hr' & He & _).
    change (Content.id Sample.row_facebook) with "c2" in Hr'.
    rewrite Hr'. simpl. now rewrite He.
Defined.

(** C3. The posts the dispatcher selects are rows of the posts table with
    status [scheduled] and a [scheduled_for] at or before the time read at
    the start of the invocation, at most 10 of them: as many as satisfy the
    predicate, capped at 10.  Whenever the response carries a [processed]
    count it is a 200 response and the count is the number of selected
    posts, and it does carry one when the request is not a preflight and the
    select succeeds.  A post with another status or with [scheduled_for] in
    the future (or null) is not selected, and only selected posts ever
    receive a status update. *)
Theorem C3_selection (env : environment) (api : variant_name -> publisher)
    (method : string) (w : world) :
  let now := clock env (ticks w) in
  let selected := due_rows now (db w) in
  let r := fst (serve env api method w) in
  let w' := snd (serve env api method w) in
  (forall p, In p selected ->
     In p (posts (db w)) /\ Post.status p = scheduled /\
     exists t, Post.scheduled_for p = Some t /\ (t <= now)%Z) /\
  length selected <= 10 /\
  length selected = Nat.min 10 (length (filter (is_due now) (posts (db w)))) /\
  (forall n, processed_of r = Some n -> status r = 200%Z /\ n = length selected) /\
  (method <> "OPTIONS" ->
   fault env (length (trace w)) (SelectDuePosts now) = None ->
   status r = 200%Z /\ processed_of r = Some (length selected)) /\
  (forall p,
     Post.status p <> scheduled \/
     (forall t, Post.scheduled_for p = Some t -> (now < t)%Z) ->
     ~ In p selected) /\
  (forall pid st,
     In (Sent (UpdatePostStatus pid st)) (skipn (length (trace w)) (trace w')) ->
     In pid (map Post.id selected)).
Proof.
  intros now selected r w'.
  assert (Hdue : forall p, In p selected ->
            In p (posts (db w)) /\ Post.status p = scheduled /\
            exists t, Post.scheduled_for p = Some t /\ (t <= now)%Z).
  { intros p Hp. apply due_rows_due in Hp. destruct Hp as [Hin Hd].
    apply is_due_spec in Hd. tauto. }
  split; [exact Hdue|].
  split; [unfold selected, due_rows; apply firstn_le_length|].
  split; [apply due_rows_length|].
  assert (Hids : map Due.id (select_due_posts now (db w)) = map Post.id selected).
  { unfold select_due_posts. fold selected. rewrite map_map. reflexivity. }
  assert (Hlen : length (select_due_posts now (db w)) = length selected).
  { unfold select_due_posts. fold selected. apply length_map. }
  assert (Hserve := serve_run env api method w). cbv zeta in Hserve. fold now in Hserve.
  assert (Hr : r = fst (serve env api method w)) by reflexivity.
  assert (Hw : w' = snd (serve env api method w)) by reflexivity.
  rewrite Hserve in Hr, Hw. clear Hserve.
  split; [|split; [|split]].
  - intros n Hn. rewrite Hr in Hn |- *.
    destruct (method =? "OPTIONS"); [discriminate|]. cbv zeta in Hn |- *.
    destruct (fault env (length (trace w)) (SelectDuePosts now)); [discriminate|].
    destruct (select_due_posts now (db w)) as [|p batch] eqn:Hsel.
    + simpl in Hn |- *. inversion Hn. split; [reflexivity|].
      rewrite <- Hlen. reflexivity.
    + destruct (processPosts env api (p :: batch) _) as [[results|message] w2];
        [|discriminate].
      cbn [fst processed_of body status] in Hn |- *. inversion Hn.
      split; [reflexivity|]. exact Hlen.
  - intros Hm Hf. rewrite Hr.
    apply String.eqb_neq in Hm. rewrite Hm. cbv zeta. rewrite Hf.
    destruct (select_due_posts now (db w)) as [|p batch] eqn:Hsel.
    + simpl. split; [reflexivity|]. rewrite <- Hlen. reflexivity.
    + match goal with
      | |- context [processPosts env api ?b ?w1] =>
          destruct (processPosts_sound env api b w1) as (results & w2 & evs & Hrun & _)
      end.
      rewrite Hrun. cbn [fst processed_of body status].
      split; [reflexivity|]. now rewrite Hlen.
  - intros p Hp Hin. destruct (Hdue p Hin) as (_ & Hs & t & Ht & Hle).
    destruct Hp as [Hp|Hp]; [contradiction|].
    specialize (Hp t Ht). lia.
  - intros pid st Hin. rewrite Hw in Hin.
    destruct (method =? "OPTIONS").
    { cbn [snd] in Hin. rewrite skipn_all in Hin. contradiction. }
    cbv zeta in Hin.
    destruct (fault env (length (trace w)) (SelectDuePosts now)).
    { cbn [snd trace] in Hin. rewrite skipn_app, skipn_all, Nat.sub_diag in Hin.
      simpl in Hin. destruct Hin as [Hin|[]]. discriminate. }
    destruct (select_due_posts now (db w)) as [|p batch] eqn:Hsel.
    { cbn [snd trace] in Hin. rewrite skipn_app, skipn_all, Nat.sub_diag in Hin.
      simpl in Hin. destruct Hin as [Hin|[]]. discriminate. }
    match type of Hin with
    | context [processPosts env api ?b ?w1] =>
        destruct (processPosts_sound env api b w1)
          as (results & w2 & evs & Hrun & _ & Ht & _ & Hev)
    end.
    rewrite Hrun in Hin. cbn [snd trace] in Hin, Ht. rewrite Ht in Hin.
    rewrite <- app_assoc, skipn_app, skipn_all, Nat.sub_diag in Hin.
    simpl in Hin. destruct Hin as [Hin|Hin]; [discriminate|].
    rewrite Forall_forall in Hev. rewrite <- Hids.
    exact (Hev _ Hin pid st eq_refl).
Qed.

Lemma C3_selection_witness :
  "POST" <> "OPTIONS" /\
  fault Sample.quiet 0 (SelectDuePosts 1000%Z) = None /\
  due_rows 1000%Z Sample.store = [Sample.launch; Sample.memo] /\
  status (fst (serve Sample.quiet platform_api "POST" Sample.start)) = 200%Z /\
  processed_of (fst (serve Sample.quiet platform_api "POST" Sample.start)) = Some 2.
Proof.
  split; [discriminate|]. split; [reflexivity|]. split; [reflexivity|].
  destruct (C3_selection Sample.quiet platform_api "POST" Sample.start)
    as (_ & _ & _ & _ & H & _).
  apply H; [discriminate | reflexivity].
Defined.

Lemma stored_content_status_update (pid : string) (st : post_status)
    (d : database) (cid : string) :
  stored_content (update_post_status pid st d) cid = stored_content d cid.
Proof. reflexivity. Qed.

(** A post with one content row, for which an account is found and the
    publish operation throws [message], is reported with 0 successes and 1
    failure and stored as [failed], with [message] in the row. *)
Lemma one_failing_row (env : environment) (post : Due.t) (content : Content.t)
    (a : SocialAccount.t) (message : string) (w : world) (r : PostContent.t) :
  Due.post_content post = [content] ->
  In a (social_accounts (db w)) ->
  SocialAccount.user_id a = Due.user_id post ->
  SocialAccount.is_active a = true ->
  SocialAccount.platform a = Content.platform content ->
  (forall account w0, exists evs,
     publishToSocialMedia platform_api (Content.platform content)
       (Content.content_text content) (Content.hashtags content)
       (Due.media_ids post) account w0 =
     (Throw message, World (db w0) (ticks w0) (trace w0 ++ evs))) ->
  (forall n q, fault env n q = None) ->
  stored_status (db w) (Due.id post) <> None ->
  stored_content (db w) (Content.id content) = Some r ->
  exists w' r',
    processPost env platform_api post w =
      (Normal (Counted (Due.id post) (Due.title post) 0 1), w') /\
    stored_status (db w') (Due.id post) = Some failed /\
    stored_content (db w') (Content.id content) = Some r' /\
    PostContent.error_message r' = Some message.
Proof.
  intros Hrows Hin Hu Ha Hp Hpub Hquiet Hpost Hrow.
  destruct (find_active_account (Due.user_id post) (Content.platform content)
              (update_post_status (Due.id post) publishing (db w)) a Hin Hu Ha Hp)
    as (account & Hfind & _).
  set (patch := Patch None None (Some (Some message))).
  set (d1 := update_post_status (Due.id post) publishing (db w)).
  set (d2 := update_post_content (Content.id content) patch d1).
  assert (Hrun : exists t,
            processPost env platform_api post w =
            (Normal (Counted (Due.id post) (Due.title post) 0 1),
             World (update_post_status (Due.id post) failed d2) (ticks w) t)).
  { unfold processPost, try_catch.
    rewrite (publishPost_accepted env platform_api post w (Hquiet _ _)).
    cbv zeta. cbn [trace db ticks]. rewrite Hquiet, Hrows.
    cbn [publishContents]. unfold bind at 1.
    rewrite publishContent_run, Hfind.
    match goal with
    | |- context [publishToSocialMedia platform_api ?p ?c ?h ?m account ?w0] =>
        destruct (Hpub account w0) as (evs & ->)
    end.
    rewrite update_run, Hquiet. cbn [snd effect db ticks trace]. unfold ret.
    rewrite update_run, Hquiet. cbn [fst snd effect db ticks trace finalStatus].
    simpl finalStatus. unfold d2, d1, patch. eexists. reflexivity. }
  destruct Hrun as (t & Hrun).
  eexists _, (apply_patch patch r). split; [exact Hrun|].
  cbn [db]. split; [|split; [|reflexivity]].
  - apply stored_status_update_same.
    rewrite (stored_status_same_posts d1 d2 (Due.id post) eq_refl).
    now apply stored_status_update_defined.
  - rewrite stored_content_status_update. unfold d2.
    rewrite stored_content_update_same. unfold d1.
    rewrite stored_content_status_update, Hrow. reflexivity.
Qed.

(** C4 as stated fails: alice's post p6 has one content row, for instagram,
    for which she has an active account, and the row's hashtags are null.
    The post is stored as [failed], but the row's [error_message] is the
    message of the TypeError of line 172, which does not mention OAuth. *)
Lemma C4_counterexample :
  Due.post_content Sample.due_plain = [Sample.row_plain] /\
  Content.platform Sample.row_plain = "instagram" /\
  Content.hashtags Sample.row_plain = None /\
  findAccount (Some (select_active_accounts "alice" Sample.untagged_store))
              "instagram" = Some Sample.alice_instagram /\
  exists r',
    stored_content
      (db (snd (processPost Sample.quiet platform_api Sample.due_plain
                  Sample.untagged_start))) "c4" = Some r' /\
    PostContent.error_message r' =
      Some "Cannot read properties of null (reading 'join')" /\
    mentions "OAuth" "Cannot read properties of null (reading 'join')" = false.
Proof.
  repeat split. eexists. split; [vm_compute; reflexivity|].
  split; reflexivity.
Qed.

(** C4, amended. Each of the four per-platform functions throws on every
    input; its message says that the API needs a complete OAuth
    configuration, and the four messages differ from one another.  Hence,
    when the store answers every request, a post whose only content row is
    for one of the four platforms, with an active account of its owner for
    that platform, is reported with 0 successes and 1 failure and is stored
    as [failed]; and when the hashtags of the row are not null, the row's
    [error_message] is the message of that platform's function. *)
Theorem C4_oauth_required :
  (forall content mediaIds account,
     publishToInstagram content mediaIds account =
       Throw "Instagram API nécessite une configuration OAuth complète avec un compte Business" /\
     publishToFacebook content mediaIds account =
       Throw "Facebook API nécessite une configuration OAuth complète" /\
     publishToTikTok content mediaIds account =
       Throw "TikTok API nécessite une configuration OAuth complète" /\
     publishToPinterest content mediaIds account =
       Throw "Pinterest API nécessite une configuration OAuth complète") /\
  (forall v, exists message,
     (forall content mediaIds account,
        platform_api v content mediaIds account = Throw message) /\
     mentions "nécessite une configuration OAuth" message = true) /\
  (forall v v' content mediaIds account,
     platform_api v content mediaIds account =
     platform_api v' content mediaIds account -> v = v') /\
  (forall (env : environment) (post : Due.t) (content : Content.t)
          (v : variant_name) (a : SocialAccount.t) (w : world) (r : PostContent.t),
     Due.post_content post = [content] ->
     variant_of (Content.platform content) = Some v ->
     In a (social_accounts (db w)) ->
     SocialAccount.user_id a = Due.user_id post ->
     SocialAccount.is_active a = true ->
     SocialAccount.platform a = Content.platform content ->
     (forall n q, fault env n q = None) ->
     stored_status (db w) (Due.id post) <> None ->
     stored_content (db w) (Content.id content) = Some r ->
     (exists w',
        processPost env platform_api post w =
          (Normal (Counted (Due.id post) (Due.title post) 0 1), w') /\
        stored_status (db w') (Due.id post) = Some failed) /\
     (forall tags, Content.hashtags content = Some tags ->
      exists message w' r',
        (forall text mediaIds account,
           platform_api v text mediaIds account = Throw message) /\
        mentions "nécessite une configuration OAuth" message = true /\
        processPost env platform_api post w =
          (Normal (Counted (Due.id post) (Due.title post) 0 1), w') /\
        stored_status (db w') (Due.id post) = Some failed /\
        stored_content (db w') (Content.id content) = Some r' /\
        PostContent.error_message r' = Some message)).
Proof.
  assert (Hall : forall v, exists message,
     (forall content mediaIds account,
        platform_api v content mediaIds account = Throw message) /\
     mentions "nécessite une configuration OAuth" message = true).
  { intros [| | |]; eexists; split; try (intros; reflexivity); reflexivity. }
  split; [intros; repeat split|]. split; [exact Hall|].
  split; [intros [| | |] [| | |] content mediaIds account H;
          (reflexivity || discriminate H)|].
  intros env post content v a w r Hrows Hv Hin Hu Ha Hp Hquiet Hpost Hrow.
  destruct (Hall v) as (message & Hthrow & Hoauth).
  assert (Htagged : forall tags, Content.hashtags content = Some tags ->
            forall account w0, exists evs,
              publishToSocialMedia platform_api (Content.platform content)
                (Content.content_text content) (Content.hashtags content)
                (Due.media_ids post) account w0 =
              (Throw message, World (db w0) (ticks w0) (trace w0 ++ evs))).
  { intros tags Htags account w0.
    rewrite publishToSocialMedia_run, Htags, Hv, Hthrow. eexists. reflexivity. }
  split.
  - assert (Hcases : (exists tags, Content.hashtags content = Some tags) \/
                     Content.hashtags content = None)
      by (destruct (Content.hashtags content); eauto).
    destruct Hcases as [(tags & Htags)|Htags].
    + destruct (one_failing_row env post content a message w r Hrows Hin Hu Ha Hp
                  (Htagged tags Htags) Hquiet Hpost Hrow)
        as (w' & r' & Hrun & Hst & _).
      exists w'. now split.
    + destruct (one_failing_row env post content a null_join w r Hrows Hin Hu Ha Hp)
        as (w' & r' & Hrun & Hst & _); auto.
      * intros account w0. rewrite publishToSocialMedia_run, Htags.
        eexists. reflexivity.
      * exists w'. now split.
  - intros tags Htags.
    destruct (one_failing_row env post content a message w r Hrows Hin Hu Ha Hp
                (Htagged tags Htags) Hquiet Hpost Hrow)
      as (w' & r' & Hrun & Hst & Hr' & Hmsg).
    exists message, w', r'. repeat split; auto.
Qed.

Lemma C4_oauth_required_witness :
  exists w' r',
    processPost Sample.quiet platform_api
      (Due.Build "p1" "alice" "Launch" ["m1"] (Some 900%Z) [Sample.row_instagram])
      Sample.start = (Normal (Counted "p1" "Launch" 0 1), w') /\
    stored_status (db w') "p1" = Some failed /\
    stored_content (db w') "c1" = Some r' /\
    PostContent.error_message r' =
      Some "Instagram API nécessite une configuration OAuth complète avec un compte Business".
Proof.
  destruct C4_oauth_required as (_ & _ & _ & H).
  destruct (H Sample.quiet
              (Due.Build "p1" "alice" "Launch" ["m1"] (Some 900%Z) [Sample.row_instagram])
              Sample.row_instagram Instagram Sample.alice_instagram Sample.start
              Sample.launch_instagram eq_refl eq_refl (or_introl eq_refl)
              eq_refl eq_refl eq_refl (fun _ _ => eq_refl))
    as (_ & Htagged).
  - discriminate.
  - reflexivity.
  - destruct (Htagged ["#a"; "#b"] eq_refl)
      as (message & w' & r' & Hthrow & _ & Hrun & Hst & Hrow & Hmsg).
    exists w', r'. split; [exact Hrun|]. split; [exact Hst|]. split; [exact Hrow|].
    rewrite Hmsg. f_equal.
    specialize (Hthrow "" [] Sample.alice_instagram). simpl in Hthrow.
    now inversion Hthrow.
Defined.

(** C5. For a content row with a matching account the publish operation
    is called, and the turn of the inner loop then sends exactly one update
    of that row.  After a success it sets [published_url] to the returned
    URL, [published_at] to the clock reading taken then and [error_message]
    to null, and the success counter grows by one.  After a failure the
    update names [error_message] only, set to the failure's message, so the
    stored [published_url] and [published_at] stay as they were, and the
    failure counter grows by one. *)
Theorem C5_publish_outcome (env : environment) (api : variant_name -> publisher)
    (post : Due.t) (socialAccounts : option (list SocialAccount.t))
    (s f : nat) (content : Content.t) (account : SocialAccount.t)
    (w w1 : world) (outcome : completion string) :
  findAccount socialAccounts (Content.platform content) = Some account ->
  publishToSocialMedia api (Content.platform content)
    (Content.content_text content) (Content.hashtags content)
    (Due.media_ids post) account w = (outcome, w1) ->
  match outcome with
  | Normal url =>
      let q := UpdatePostContent (Content.id content)
                 (Patch (Some (Some url)) (Some (Some (clock env (ticks w))))
                        (Some None)) in
      exists w' : world,
        publishContent env api post socialAccounts (s, f) content w =
          (Normal (S s, f), w') /\
        trace w' = trace w1 ++ [Sent q] /\
        (fault env (length (trace w1)) q = None ->
         forall r, stored_content (db w) (Content.id content) = Some r ->
         exists r',
           stored_content (db w') (Content.id content) = Some r' /\
           PostContent.published_url r' = Some url /\
           PostContent.published_at r' = Some (clock env (ticks w)) /\
           PostContent.error_message r' = None)
  | Throw message =>
      let q := UpdatePostContent (Content.id content)
                 (Patch None None (Some (Some message))) in
      exists w' : world,
        publishContent env api post socialAccounts (s, f) content w =
          (Normal (s, S f), w') /\
        trace w' = trace w1 ++ [Sent q] /\
        (fault env (length (trace w1)) q = None ->
         forall r, stored_content (db w) (Content.id content) = Some r ->
         exists r',
           stored_content (db w') (Content.id content) = Some r' /\
           PostContent.error_message r' = Some message /\
           PostContent.published_url r' = PostContent.published_url r /\
           PostContent.published_at r' = PostContent.published_at r)
  end.
Proof.
  intros Hfind Hpub.
  assert (Hrun := publishContent_run env api post socialAccounts s f content w).
  rewrite Hfind, Hpub in Hrun.
  assert (Hw1 : db w1 = db w /\ ticks w1 = ticks w).
  { rewrite publishToSocialMedia_run in Hpub.
    destruct (Content.hashtags content);
      [destruct (variant_of (Content.platform content))|];
      inversion Hpub; subst; split; reflexivity. }
  destruct Hw1 as [Hdb Hticks].
  destruct outcome as [url|message]; cbv zeta.
  - rewrite Hticks in Hrun. eexists. split; [exact Hrun|].
    split; [now rewrite update_trace|].
    intros Hf r Hr. eexists. split.
    + apply content_written; [exact Hf|].
      cbn [db]. rewrite Hdb. exact Hr.
    + repeat split.
  - eexists. split; [exact Hrun|]. split; [apply update_trace|].
    intros Hf r Hr. eexists. split.
    + apply content_written; [exact Hf|]. rewrite Hdb. exact Hr.
    + repeat split.
Qed.

Lemma C5_publish_outcome_witness :
  (exists w',
     publishContent Sample.quiet Sample.working_api Sample.due_launch
       Sample.alice_accounts (0, 0) Sample.row_instagram Sample.start =
       (Normal (1, 0), w') /\
     exists r',
       stored_content (db w') "c1" = Some r' /\
       PostContent.published_url r' = Some "https://social.example/1" /\
       PostContent.published_at r' = Some 1000%Z /\
       PostContent.error_message r' = None) /\
  (exists w' message,
     publishContent Sample.quiet platform_api Sample.due_launch
       Sample.alice_accounts (0, 0) Sample.row_instagram Sample.start =
       (Normal (0, 1), w') /\
     exists r',
       stored_content (db w') "c1" = Some r' /\
       PostContent.error_message r' = Some message /\
       PostContent.published_url r' = None /\
       PostContent.published_at r' = None).
Proof.
  split.
  - destruct (C5_publish_outcome Sample.quiet Sample.working_api Sample.due_launch
                Sample.alice_accounts 0 0 Sample.row_instagram
                Sample.alice_instagram Sample.start _ _ eq_refl eq_refl)
      as (w' & Hrun & _ & Hrow).
    exists w'. split; [exact Hrun|].
    exact (Hrow eq_refl Sample.launch_instagram eq_refl).
  - destruct (C5_publish_outcome Sample.quiet platform_api Sample.due_launch
                Sample.alice_accounts 0 0 Sample.row_instagram
                Sample.alice_instagram Sample.start _ _ eq_refl eq_refl)
      as (w' & Hrun & _ & Hrow).
    exists w'. eexists. split; [exact Hrun|].
    exact (Hrow eq_refl Sample.launch_instagram eq_refl).
Defined.



(** When the select of the accounts is refused, its error is dropped: the
    post is processed as if its owner had no account at all. *)
Lemma accounts_error_dropped (env : environment) (api : variant_name -> publisher)
    (post : Due.t) (w : world) (e : string) :
  fault env (length (trace w)) (UpdatePostStatus (Due.id post) publishing) = None ->
  fault env (S (length (trace w))) (SelectActiveAccounts (Due.user_id post)) = Some e ->
  exists (w' : world) (evs : list event),
    processPost env api post w =
      (Normal (Counted (Due.id post) (Due.title post) 0
                       (length (Due.post_content post))), w') /\
    trace w' =
      trace w ++ Sent (UpdatePostStatus (Due.id post) publishing)
              :: Sent (SelectActiveAccounts (Due.user_id post))
              :: evs ++
              [Sent (UpdatePostStatus (Due.id post)
                       (finalStatus 0 (length (Due.post_content post))))] /\
    Forall (fun ev => is_publish ev = false) evs.
Proof.
  intros Hmark Hsel. unfold processPost, try_catch.
  rewrite (publishPost_accepted env api post w Hmark). cbv zeta. cbn [trace].
  rewrite length_app, Nat.add_1_r, Hsel.
  match goal with
  | |- context [publishContents env api post None (0, 0) ?rows ?w2] =>
      destruct (publishContents_without_accounts env api post rows 0 0 w2)
        as (w3 & evs & Hrun & Ht & Hev & _)
  end.
  rewrite Hrun. cbn [fst snd]. rewrite Nat.add_0_l.
  eexists _, evs. split; [reflexivity|]. split; [|exact Hev].
  rewrite update_trace, Ht. cbn [trace]. rewrite <- !app_assoc. reflexivity.
Qed.

(** C7 (the code does otherwise).  The select of the owner's accounts fails
    with "connection lost" on every call.  The dispatcher does not take the
    error path: both due posts are reported with counters and no error
    field, the row of alice's post for instagram, for which she has an
    active account, is written "Compte non connecté", and her post is stored
    as [failed] from the counters.  A due post without content rows is even
    stored as [published].  The remaining posts are processed. *)
Theorem C7_accounts_error_is_dropped :
  fault Sample.accounts_down 2 (SelectActiveAccounts "alice") =
    Some "connection lost" /\
  fst (dispatcher Sample.accounts_down "POST" Sample.start) =
    Response 200
      (Finished "Publication terminée" 2
         [Counted "p1" "Launch" 0 2; Counted "p3" "Memo" 0 1]) /\
  option_map PostContent.error_message
    (stored_content (db (snd (dispatcher Sample.accounts_down "POST" Sample.start)))
       "c1") = Some (Some "Compte non connecté") /\
  stored_status (db (snd (dispatcher Sample.accounts_down "POST" Sample.start)))
    "p1" = Some failed /\
  fst (dispatcher Sample.accounts_down "POST" Sample.bare_start) =
    Response 200 (Finished "Publication terminée" 1 [Counted "p5" "Bare" 0 0]) /\
  stored_status (db (snd (dispatcher Sample.accounts_down "POST" Sample.bare_start)))
    "p5" = Some published.
Proof. repeat split; vm_compute; reflexivity. Qed.

(** C8. When no post satisfies the due predicate at the time read at the
    start of the invocation, the invocation changes no table and sends no
    update.  When moreover the request is not a preflight and the select
    succeeds, the response is 200 with the message "Aucun post à publier"
    and [processed] 0, and the select is the only request sent. *)
Theorem C8_nothing_due (env : environment) (api : variant_name -> publisher)
    (method : string) (w : world) :
  filter (is_due (clock env (ticks w))) (posts (db w)) = [] ->
  let now := clock env (ticks w) in
  let r := fst (serve env api method w) in
  let w' := snd (serve env api method w) in
  db w' = db w /\
  Forall (fun e => is_write e = false) (skipn (length (trace w)) (trace w')) /\
  (method <> "OPTIONS" ->
   fault env (length (trace w)) (SelectDuePosts now) = None ->
   r = Response 200 (Idle "Aucun post à publier" 0) /\
   processed_of r = Some 0 /\
   trace w' = trace w ++ [Sent (SelectDuePosts now)]).
Proof.
  intros Hnone now r w'.
  assert (Hsel : select_due_posts now (db w) = []).
  { unfold select_due_posts, due_rows. fold now in Hnone. rewrite Hnone.
    reflexivity. }
  assert (Hserve := serve_run env api method w). cbv zeta in Hserve.
  fold now in Hserve. rewrite Hsel in Hserve.
  unfold r, w'. rewrite Hserve. clear Hserve.
  destruct (method =? "OPTIONS") eqn:Hm.
  - cbn [fst snd]. split; [reflexivity|]. split.
    + rewrite skipn_all. constructor.
    + intros Hne. apply String.eqb_eq in Hm. contradiction.
  - destruct (fault env (length (trace w)) (SelectDuePosts now)) as [e|];
      cbn [fst snd db trace]; (split; [reflexivity|]); split;
      try (rewrite skipn_app, skipn_all, Nat.sub_diag; simpl;
           constructor; [reflexivity | constructor]).
    + intros _ H. discriminate H.
    + intros _ _. repeat split.
Qed.

Lemma C8_nothing_due_witness :
  filter (is_due 1000%Z) (posts Sample.idle_store) = [] /\
  serve Sample.quiet platform_api "POST" Sample.idle_start =
    (Response 200 (Idle "Aucun post à publier" 0),
     World Sample.idle_store 1 [Sent (SelectDuePosts 1000%Z)]).
Proof.
  split; [reflexivity|].
  destruct (C8_nothing_due Sample.quiet platform_api "POST" Sample.idle_start eq_refl)
    as (Hdb & _ & H).
  destruct (H ltac:(discriminate) eq_refl) as (Hr & _ & Ht).
  rewrite (surjective_pairing (serve Sample.quiet platform_api "POST" Sample.idle_start)).
  rewrite Hr. f_equal.
Defined.

(** C9 as stated fails: for the instagram row of alice's post, whose caption
    is "hello" and whose hashtags are "#a" and "#b", the text given to the
    instagram function is not the caption concatenated with the
    space-joined hashtags. *)
Lemma C9_counterexample :
  findAccount Sample.alice_accounts (Content.platform Sample.row_instagram) =
    Some Sample.alice_instagram /\
  Content.content_text Sample.row_instagram = "hello" /\
  Content.hashtags Sample.row_instagram = Some ["#a"; "#b"] /\
  exists text : string,
    In (Variant Instagram text ["m1"] Sample.alice_instagram)
       (trace (snd (publishContent Sample.quiet platform_api Sample.due_launch
                      Sample.alice_accounts (0, 0) Sample.row_instagram
                      Sample.start))) /\
    text <> caption_with_hashtags "hello" ["#a"; "#b"].
Proof.
  split; [reflexivity|]. split; [reflexivity|]. split; [reflexivity|].
  exists (fullContent "hello" ["#a"; "#b"]). split.
  - vm_compute. right. left. reflexivity.
  - vm_compute. intros H. discriminate H.
Qed.

(** C9, amended. For a content row with a matching account the publish
    operation is called once, with the row's platform, caption and hashtags,
    the post's media references and the matched account.  When the platform
    is one of the four and the row's hashtags are not null, the function of
    that platform is then called once, with the caption followed by two
    newline characters and the space-joined hashtags, the post's media
    references and the matched account; for another platform, or when the
    hashtags are null, no per-platform function is called.  One update of
    the row follows. *)
Theorem C9_text_given_to_platform (env : environment)
    (api : variant_name -> publisher) (post : Due.t)
    (socialAccounts : option (list SocialAccount.t)) (s f : nat)
    (content : Content.t) (account : SocialAccount.t) (w : world) :
  findAccount socialAccounts (Content.platform content) = Some account ->
  exists evs : list event,
    trace (snd (publishContent env api post socialAccounts (s, f) content w)) =
      trace w ++ Publish (Content.platform content) (Content.content_text content)
                         (Content.hashtags content) (Due.media_ids post) account
              :: evs /\
    (forall v tags,
       variant_of (Content.platform content) = Some v ->
       Content.hashtags content = Some tags ->
       exists p,
         evs = [Variant v (Content.content_text content ++ newline ++ newline
                           ++ String.concat " " tags)%string
                        (Due.media_ids post) account;
                Sent (UpdatePostContent (Content.id content) p)]) /\
    (variant_of (Content.platform content) = None \/
     Content.hashtags content = None ->
       exists p, evs = [Sent (UpdatePostContent (Content.id content) p)]).
Proof.
  intros Hfind.
  rewrite publishContent_run, Hfind, publishToSocialMedia_run.
  destruct (Content.hashtags content) as [tags|];
    [destruct (variant_of (Content.platform content)) as [v|]|].
  - destruct (api v (fullContent (Content.content_text content) tags)
                (Due.media_ids post) account) as [url|message];
      cbn [snd]; rewrite update_trace; cbn [trace]; rewrite <- app_assoc;
      eexists; (split; [reflexivity|]); split;
      try (intros v' tags' Hv' Ht'; inversion Hv'; inversion Ht'; subst v' tags';
           eexists; reflexivity);
      intros [H|H]; discriminate H.
  - cbn [snd]. rewrite update_trace. cbn [trace]. rewrite <- app_assoc.
    eexists. split; [reflexivity|]. split.
    + intros v tags' H. discriminate H.
    + intros _. eexists. reflexivity.
  - cbn [snd]. rewrite update_trace. cbn [trace]. rewrite <- app_assoc.
    eexists. split; [reflexivity|]. split.
    + intros v tags' _ H. discriminate H.
    + intros _. eexists. reflexivity.
Qed.

Lemma C9_text_given_to_platform_witness :
  exists p,
    trace (snd (publishContent Sample.quiet platform_api Sample.due_launch
                  Sample.alice_accounts (0, 0) Sample.row_instagram Sample.start)) =
    [Publish "instagram" "hello" (Some ["#a"; "#b"]) ["m1"] Sample.alice_instagram;
     Variant Instagram ("hello" ++ newline ++ newline ++ "#a #b")%string ["m1"]
             Sample.alice_instagram;
     Sent (UpdatePostContent "c1" p)].
Proof.
  destruct (C9_text_given_to_platform Sample.quiet platform_api Sample.due_launch
              Sample.alice_accounts 0 0 Sample.row_instagram
              Sample.alice_instagram Sample.start eq_refl)
    as (evs & Ht & Hv & _).
  destruct (Hv Instagram ["#a"; "#b"] eq_refl eq_refl) as (p & Hevs).
  exists p. rewrite Ht, Hevs. reflexivity.
Defined.

(** C10 as stated fails: bob's post p7 has a content row for "mastodon",
    for which he has an active account, and the row's hashtags are null.
    The publish operation fails, but with the message of the TypeError of
    line 172, which does not name the platform; that message is stored in
    the row. *)
Lemma C10_counterexample :
  Content.platform Sample.row_scrap = "mastodon" /\
  Content.hashtags Sample.row_scrap = None /\
  findAccount Sample.bob_accounts "mastodon" = Some Sample.bob_mastodon /\
  fst (publishToSocialMedia platform_api "mastodon"
         (Content.content_text Sample.row_scrap) None
         (Due.media_ids Sample.due_scrap) Sample.bob_mastodon
         Sample.untagged_start) =
    Throw "Cannot read properties of null (reading 'join')" /\
  mentions "mastodon" "Cannot read properties of null (reading 'join')" = false /\
  exists r',
    stored_content
      (db (snd (publishContent Sample.quiet platform_api Sample.due_scrap
                  Sample.bob_accounts (0, 0) Sample.row_scrap
                  Sample.untagged_start))) "c5" = Some r' /\
    PostContent.error_message r' =
      Some "Cannot read properties of null (reading 'join')".
Proof.
  repeat split. eexists. split; [vm_compute; reflexivity|reflexivity].
Qed.

(** C10, amended. For a content row with a matching account whose platform
    is none of "instagram", "facebook", "tiktok" and "pinterest", the
    publish operation throws without calling a per-platform function: when
    the row's hashtags are not null the message is "Plateforme non
    supportée: " followed by the platform, and when they are null it is the
    message of the TypeError of [hashtags.join].  The row's turn completes:
    it sends the update that sets [error_message] to that message, the
    failure counter grows by one, and the loop goes on with the next row. *)
Theorem C10_unsupported_platform (env : environment)
    (api : variant_name -> publisher) (post : Due.t)
    (socialAccounts : option (list SocialAccount.t)) (s f : nat)
    (content : Content.t) (account : SocialAccount.t) (rest : list Content.t)
    (w : world) :
  findAccount socialAccounts (Content.platform content) = Some account ->
  Content.platform content <> "instagram" ->
  Content.platform content <> "facebook" ->
  Content.platform content <> "tiktok" ->
  Content.platform content <> "pinterest" ->
  let message :=
    match Content.hashtags content with
    | Some _ => ("Plateforme non supportée: " ++ Content.platform content)%string
    | None => "Cannot read properties of null (reading 'join')"
    end in
  let called := Publish (Content.platform content) (Content.content_text content)
                        (Content.hashtags content) (Due.media_ids post) account in
  let q := UpdatePostContent (Content.id content)
             (Patch None None (Some (Some message))) in
  exists w' : world,
    publishToSocialMedia api (Content.platform content)
      (Content.content_text content) (Content.hashtags content)
      (Due.media_ids post) account w =
      (Throw message, World (db w) (ticks w) (trace w ++ [called])) /\
    publishContent env api post socialAccounts (s, f) content w =
      (Normal (s, S f), w') /\
    trace w' = trace w ++ [called; Sent q] /\
    (fault env (S (length (trace w))) q = None ->
     forall r, stored_content (db w) (Content.id content) = Some r ->
     exists r',
       stored_content (db w') (Content.id content) = Some r' /\
       PostContent.error_message r' = Some message /\
       PostContent.published_url r' = PostContent.published_url r /\
       PostContent.published_at r' = PostContent.published_at r) /\
    publishContents env api post socialAccounts (s, f) (content :: rest) w =
    publishContents env api post socialAccounts (s, S f) rest w'.
Proof.
  intros Hfind H1 H2 H3 H4 message called q.
  assert (Hv := variant_of_none _ H1 H2 H3 H4).
  assert (Hpub :
    publishToSocialMedia api (Content.platform content)
      (Content.content_text content) (Content.hashtags content)
      (Due.media_ids post) account w =
    (Throw message, World (db w) (ticks w) (trace w ++ [called]))).
  { rewrite publishToSocialMedia_run, Hv. unfold message, called.
    destruct (Content.hashtags content); reflexivity. }
  assert (Hrun := publishContent_run env api post socialAccounts s f content w).
  rewrite Hfind, Hpub in Hrun. fold q in Hrun.
  eexists. split; [exact Hpub|]. split; [exact Hrun|]. split.
  - rewrite update_trace. cbn [trace]. rewrite <- app_assoc. reflexivity.
  - split.
    + intros Hf r Hr. eexists. split.
      * apply content_written; [|exact Hr].
        cbn [trace]. rewrite length_app, Nat.add_1_r. exact Hf.
      * repeat split.
    + now apply publishContents_cons.
Qed.

Lemma C10_unsupported_platform_witness :
  exists w' : world,
    publishContent Sample.quiet platform_api Sample.due_memo Sample.bob_accounts
      (0, 0) Sample.row_mastodon Sample.start = (Normal (0, 1), w') /\
    exists r',
      stored_content (db w') "c3" = Some r' /\
      PostContent.error_message r' = Some "Plateforme non supportée: mastodon".
Proof.
  destruct (C10_unsupported_platform Sample.quiet platform_api Sample.due_memo
              Sample.bob_accounts 0 0 Sample.row_mastodon Sample.bob_mastodon []
              Sample.start eq_refl)
    as (w' & _ & Hrun & _ & Hrow & _); try discriminate.
  exists w'. split; [exact Hrun|].
  destruct (Hrow eq_refl Sample.memo_mastodon eq_refl) as (r' & Hr' & He & _).
  exists r'. split; [exact Hr' | exact He].
Defined.

(** * More about the dispatcher *)

Lemma reaches_trans (env : environment) (batch : list Due.t) (w w1 w2 : world) :
  reaches env batch w w1 -> reaches env batch w1 w2 -> reaches env batch w w2.
Proof.
  induction 1 as [|w w0 w1 Hs _ IH]; intros H2; [exact H2|].
  exact (reaches_step env batch w w0 w2 Hs (IH H2)).
Qed.

Lemma reaches_one (env : environment) (batch : list Due.t) (w w1 : world) :
  step env batch w w1 -> reaches env batch w w1.
Proof. intros H. exact (reaches_step env batch w w1 w1 H (reaches_here env batch w1)). Qed.

Lemma row_of_incl (batch batch' : list Due.t) (post : Due.t) (content : Content.t) :
  incl batch batch' -> row_of batch post content -> row_of batch' post content.
Proof. intros Hi [Hp Hc]. split; [now apply Hi | exact Hc]. Qed.

Lemma permitted_incl (batch batch' : list Due.t) (q : request) :
  incl batch batch' -> permitted batch q -> permitted batch' q.
Proof.
  intros Hi. destruct q as [now|pid st|uid|cid p]; simpl.
  - exact (fun H => H).
  - intros [Hin Hst]. split; [|exact Hst].
    apply in_map_iff in Hin. destruct Hin as (post & Hid & Hin).
    apply in_map_iff. exists post. split; [exact Hid | now apply Hi].
  - intros Hin. apply in_map_iff in Hin. destruct Hin as (post & Hid & Hin).
    apply in_map_iff. exists post. split; [exact Hid | now apply Hi].
  - intros (post & content & Hrow & Hcid). exists post, content.
    split; [exact (row_of_incl _ _ _ _ Hi Hrow) | exact Hcid].
Qed.

Lemma called_incl (batch batch' : list Due.t) (accounts : list SocialAccount.t)
    (e : event) :
  incl batch batch' -> called batch accounts e -> called batch' accounts e.
Proof.
  intros Hi. destruct e as [q|pl c h m a|v t m a]; simpl.
  - exact (fun H => H).
  - intros (post & row & Hrow & H). exists post, row.
    split; [exact (row_of_incl _ _ _ _ Hi Hrow) | exact H].
  - intros (post & row & Hrow & H). exists post, row.
    split; [exact (row_of_incl _ _ _ _ Hi Hrow) | exact H].
Qed.

Lemma step_incl (env : environment) (batch batch' : list Due.t) (w w' : world) :
  incl batch batch' -> step env batch w w' -> step env batch' w w'.
Proof.
  intros Hi [|q Hq|e He].
  - apply step_clock.
  - apply step_request. exact (permitted_incl _ _ _ Hi Hq).
  - apply step_call. exact (called_incl _ _ _ _ Hi He).
Qed.

Lemma reaches_incl (env : environment) (batch batch' : list Due.t) (w w' : world) :
  incl batch batch' -> reaches env batch w w' -> reaches env batch' w w'.
Proof.
  intros Hi. induction 1 as [|w w0 w1 Hs _ IH]; [apply reaches_here|].
  exact (reaches_step env batch' w w0 w1 (step_incl _ _ _ _ _ Hi Hs) IH).
Qed.

(** A run never touches the accounts. *)
Lemma step_accounts (env : environment) (batch : list Due.t) (w w' : world) :
  step env batch w w' -> social_accounts (db w') = social_accounts (db w).
Proof.
  intros [|q _|e _]; cbn [db]; try reflexivity.
  destruct (fault env (length (trace w)) q); [reflexivity|].
  now destruct q.
Qed.

Lemma reaches_accounts (env : environment) (batch : list Due.t) (w w' : world) :
  reaches env batch w w' -> social_accounts (db w') = social_accounts (db w).
Proof.
  induction 1 as [|w w0 w1 Hs _ IH]; [reflexivity|].
  rewrite IH. exact (step_accounts _ _ _ _ Hs).
Qed.

(** The world after a request is the world [update] leaves. *)
Lemma step_update (env : environment) (batch : list Due.t) (q : request) (w : world) :
  permitted batch q -> step env batch w (snd (update env q w)).
Proof. intros Hq. rewrite update_run. exact (step_request env batch w q Hq). Qed.

Lemma found_account (accounts : list SocialAccount.t) (uid platform : string)
    (socialAccounts : option (list SocialAccount.t)) (account : SocialAccount.t) :
  (forall l, socialAccounts = Some l ->
     l = filter (fun a => (SocialAccount.user_id a =? uid) && SocialAccount.is_active a)
                accounts) ->
  findAccount socialAccounts platform = Some account ->
  In account accounts /\
  SocialAccount.user_id account = uid /\
  SocialAccount.is_active account = true /\
  SocialAccount.platform account = platform.
Proof.
  intros Hsel Hfind. destruct socialAccounts as [l|]; [|discriminate].
  rewrite (Hsel l eq_refl) in Hfind. simpl in Hfind.
  apply find_some in Hfind. destruct Hfind as [Hin Hpl].
  apply filter_In in Hin. destruct Hin as [Hin Hc].
  apply andb_true_iff in Hc. destruct Hc as [Hu Ha].
  apply String.eqb_eq in Hu, Hpl. auto.
Qed.

Section Reaching.

Variable env : environment.
Variable api : variant_name -> publisher.

(** One turn of the inner loop is a short run. *)
Lemma publishContent_reaches (batch : list Due.t) (post : Due.t)
    (socialAccounts : option (list SocialAccount.t)) (counts : nat * nat)
    (content : Content.t) (w : world) :
  row_of batch post content ->
  (forall l, socialAccounts = Some l ->
     l = filter (fun a => (SocialAccount.user_id a =? Due.user_id post)
                          && SocialAccount.is_active a)
                (social_accounts (db w))) ->
  reaches env batch w
    (snd (publishContent env api post socialAccounts counts content w)).
Proof.
  intros Hrow Hsel. destruct counts as [s f]. rewrite publishContent_run.
  assert (Hupd : forall p w0,
            step env batch w0
              (snd (update env (UpdatePostContent (Content.id content) p) w0))).
  { intros p w0. apply step_update. simpl. now exists post, content. }
  destruct (findAccount socialAccounts (Content.platform content))
    as [account|] eqn:Hfind.
  - destruct (found_account _ _ _ _ _ Hsel Hfind) as (Hin & Hu & Ha & Hp).
    rewrite publishToSocialMedia_run.
    set (e1 := Publish (Content.platform content) (Content.content_text content)
                       (Content.hashtags content) (Due.media_ids post) account).
    assert (H1 : step env batch w (World (db w) (ticks w) (trace w ++ [e1]))).
    { apply step_call. simpl. exists post, content. repeat split; auto; apply Hrow. }
    destruct (Content.hashtags content) as [tags|] eqn:Htags;
      [destruct (variant_of (Content.platform content)) as [v|] eqn:Hv|].
    + set (e2 := Variant v (fullContent (Content.content_text content) tags)
                         (Due.media_ids post) account).
      assert (H2 : step env batch (World (db w) (ticks w) (trace w ++ [e1]))
                        (World (db w) (ticks w) (trace w ++ [e1; e2]))).
      { replace (trace w ++ [e1; e2]) with ((trace w ++ [e1]) ++ [e2])
          by (rewrite <- app_assoc; reflexivity).
        apply (step_call env batch (World (db w) (ticks w) (trace w ++ [e1])) e2).
        simpl. exists post, content. repeat split; auto; try apply Hrow.
        exists tags. now split. }
      destruct (api v _ _ account) as [url|message]; cbn [snd].
      * eapply reaches_step; [exact H1|]. eapply reaches_step; [exact H2|].
        eapply reaches_step; [|apply reaches_one; apply Hupd].
        apply (step_clock env batch (World (db w) (ticks w) (trace w ++ [e1; e2]))).
      * eapply reaches_step; [exact H1|]. eapply reaches_step; [exact H2|].
        apply reaches_one, Hupd.
    + cbn [snd]. eapply reaches_step; [exact H1|]. apply reaches_one, Hupd.
    + cbn [snd]. eapply reaches_step; [exact H1|]. apply reaches_one, Hupd.
  - cbn [snd]. apply reaches_one, Hupd.
Qed.

Lemma publishContents_reaches (batch : list Due.t) (post : Due.t)
    (socialAccounts : option (list SocialAccount.t)) (rows : list Content.t) :
  forall (counts : nat * nat) (w : world),
  In post batch ->
  incl rows (Due.post_content post) ->
  (forall l, socialAccounts = Some l ->
     l = filter (fun a => (SocialAccount.user_id a =? Due.user_id post)
                          && SocialAccount.is_active a)
                (social_accounts (db w))) ->
  reaches env batch w
    (snd (publishContents env api post socialAccounts counts rows w)).
Proof.
  induction rows as [|content rest IH]; intros counts w Hpost Hrows Hsel.
  - apply reaches_here.
  - assert (Hrow : row_of batch post content).
    { split; [exact Hpost | apply Hrows; now left]. }
    assert (Hone := publishContent_reaches batch post socialAccounts counts
                      content w Hrow Hsel).
    destruct counts as [s f].
    destruct (publishContent_sound env api post socialAccounts s f content w)
      as (s1 & f1 & w1 & evs & Hrun & _).
    rewrite Hrun in Hone. cbn [snd] in Hone.
    rewrite (publishContents_cons env api post socialAccounts (s, f) (s1, f1)
               content rest w w1 Hrun).
    eapply reaches_trans; [exact Hone|].
    apply IH; [exact Hpost | |].
    + intros c Hc. apply Hrows. now right.
    + rewrite (reaches_accounts _ _ _ _ Hone). exact Hsel.
Qed.

(** One turn of the outer loop is a run on the post alone. *)
Lemma processPost_reaches (batch : list Due.t) (post : Due.t) (w : world) :
  In post batch ->
  reaches env batch w (snd (processPost env api post w)).
Proof.
  intros Hpost.
  assert (Hid : In (Due.id post) (map Due.id batch)) by now apply in_map.
  assert (Hstatus : forall st w0, written_status st ->
            step env batch w0
              (snd (update env (UpdatePostStatus (Due.id post) st) w0))).
  { intros st w0 Hst. apply step_update. simpl. now split. }
  unfold processPost, try_catch.
  destruct (fault env (length (trace w))
              (UpdatePostStatus (Due.id post) publishing)) as [e|] eqn:Hf.
  - rewrite (publishPost_refused env api post w e Hf). unfold bind, ret.
    assert (H1 := Hstatus publishing w (or_introl eq_refl)).
    rewrite update_run, Hf in H1. cbn [snd] in H1.
    eapply reaches_step; [exact H1|].
    match goal with
    | |- context [update env ?q ?w0] =>
        assert (H2 := Hstatus failed w0 (or_intror (or_intror eq_refl)));
        destruct (update env q w0) as [[r|m] w2]
    end; cbn [snd] in *; apply reaches_one; exact H2.
  - rewrite (publishPost_accepted env api post w Hf). cbv zeta.
    assert (H1 := Hstatus publishing w (or_introl eq_refl)).
    rewrite update_run, Hf in H1. cbn [snd effect] in H1.
    set (w1 := World (update_post_status (Due.id post) publishing (db w)) (ticks w)
                 (trace w ++ [Sent (UpdatePostStatus (Due.id post) publishing)])) in *.
    set (w2 := World (db w1) (ticks w1)
                 (trace w1 ++ [Sent (SelectActiveAccounts (Due.user_id post))])).
    assert (H2 : step env batch w1 w2).
    { assert (H := step_request env batch w1
                     (SelectActiveAccounts (Due.user_id post))
                     (in_map Due.user_id batch post Hpost)).
      cbn [effect] in H.
      now destruct (fault env (length (trace w1))
                      (SelectActiveAccounts (Due.user_id post))). }
    match goal with
    | |- context [publishContents env api post ?a (0, 0) ?rows w2] =>
        assert (H3 := publishContents_reaches batch post a rows (0, 0) w2 Hpost
                        (incl_refl _));
        destruct (publishContents_sound env api post a rows 0 0 w2)
          as (s & f & w3 & evs & Hrun & _)
    end.
    rewrite Hrun in H3 |- *. cbn [snd fst] in H3 |- *.
    eapply reaches_step; [exact H1|]. eapply reaches_step; [exact H2|].
    eapply reaches_trans.
    + apply H3. intros l Hl.
      destruct (fault env (length (trace w1))
                  (SelectActiveAccounts (Due.user_id post))); [discriminate|].
      inversion Hl. reflexivity.
    + apply reaches_one, Hstatus.
      unfold finalStatus. destruct (Nat.eqb f 0); [right; now left|].
      destruct (Nat.ltb 0 s); [right; now left | right; now right].
Qed.

Lemma processPosts_reaches (batch : list Due.t) (todo : list Due.t) :
  forall w : world,
  incl todo batch ->
  reaches env batch w (snd (processPosts env api todo w)).
Proof.
  induction todo as [|post rest IH]; intros w Hincl.
  - apply reaches_here.
  - assert (Hone := processPost_reaches batch post w (Hincl post (or_introl eq_refl))).
    destruct (processPost_sound env api post w) as (entry & w1 & evs & Hrun & _).
    rewrite Hrun in Hone. cbn [snd] in Hone.
    rewrite (processPosts_cons env api post rest entry w w1 Hrun).
    assert (Hrest := IH w1 (fun q Hq => Hincl q (or_intror Hq))).
    destruct (processPosts env api rest w1) as [[results|message] w2];
      cbn [snd] in *; exact (reaches_trans _ _ _ _ _ Hone Hrest).
Qed.

End Reaching.

(** ** What a run keeps *)

Lemma post_step_here (ids : list string) (l : list Post.t) :
  Forall2 (post_step ids) l l.
Proof. induction l; constructor; [now left | assumption]. Qed.

Lemma content_step_here (cids : list string) (l : list PostContent.t) :
  Forall2 (content_step cids) l l.
Proof. induction l; constructor; [now left | assumption]. Qed.

Lemma post_step_id (ids : list string) (r r' : Post.t) :
  post_step ids r r' -> Post.id r' = Post.id r.
Proof. intros [->|(_ & st & _ & ->)]; reflexivity. Qed.

Lemma content_step_id (cids : list string) (r r' : PostContent.t) :
  content_step cids r r' -> PostContent.id r' = PostContent.id r.
Proof.
  intros [->|(_ & Hn & _)]; [reflexivity|].
  exact (f_equal Content.id Hn).
Qed.

Lemma post_step_update (ids : list string) (pid : string) (st : post_status)
    (l l' : list Post.t) :
  In pid ids -> written_status st ->
  Forall2 (post_step ids) l l' ->
  Forall2 (post_step ids) l
    (map (fun r => if Post.id r =? pid then set_status st r else r) l').
Proof.
  intros Hin Hst. induction 1 as [|r r' l l' Hr _ IH]; simpl; constructor;
    [|exact IH].
  destruct (Post.id r' =? pid) eqn:E; [|exact Hr].
  apply String.eqb_eq in E. right.
  rewrite <- (post_step_id _ _ _ Hr), E. split; [exact Hin|].
  exists st. split; [exact Hst|].
  destruct Hr as [->|(_ & st0 & _ & ->)]; reflexivity.
Qed.

Lemma content_step_update (cids : list string) (cid : string) (p : content_patch)
    (l l' : list PostContent.t) :
  In cid cids ->
  Forall2 (content_step cids) l l' ->
  Forall2 (content_step cids) l
    (map (fun r => if PostContent.id r =? cid then apply_patch p r else r) l').
Proof.
  intros Hin. induction 1 as [|r r' l l' Hr _ IH]; simpl; constructor;
    [|exact IH].
  destruct (PostContent.id r' =? cid) eqn:E; [|exact Hr].
  apply String.eqb_eq in E. right.
  rewrite <- (content_step_id _ _ _ Hr), E. split; [exact Hin|].
  destruct Hr as [->|(_ & Hn & Hp)]; [split; reflexivity|].
  split; [exact Hn | exact Hp].
Qed.

Lemma content_ids_row (batch : list Due.t) (post : Due.t) (content : Content.t) :
  row_of batch post content -> In (Content.id content) (content_ids batch).
Proof.
  intros [Hp Hc]. unfold content_ids. apply in_flat_map. exists post.
  split; [exact Hp | now apply in_map].
Qed.

Lemma step_evolves (env : environment) (batch : list Due.t) (d : database)
    (w w' : world) :
  step env batch w w' ->
  evolves (map Due.id batch) (content_ids batch) d (db w) ->
  evolves (map Due.id batch) (content_ids batch) d (db w').
Proof.
  intros [|q Hq|e _] Hev; cbn [db]; try exact Hev.
  destruct (fault env (length (trace w)) q); [exact Hev|].
  destruct Hev as (Ha & Hp & Hc).
  destruct q as [now|pid st|uid|cid p]; simpl in Hq |- *;
    try (split; [exact Ha | split; [exact Hp | exact Hc]]).
  - destruct Hq as [Hin Hst]. split; [exact Ha|]. split; [|exact Hc].
    now apply post_step_update.
  - destruct Hq as (post & content & Hrow & ->). split; [exact Ha|].
    split; [exact Hp|]. apply content_step_update; [|exact Hc].
    exact (content_ids_row _ _ _ Hrow).
Qed.

Lemma reaches_evolves (env : environment) (batch : list Due.t) (d : database)
    (w w' : world) :
  reaches env batch w w' ->
  evolves (map Due.id batch) (content_ids batch) d (db w) ->
  evolves (map Due.id batch) (content_ids batch) d (db w').
Proof.
  induction 1 as [|w w0 w1 Hs _ IH]; intros Hev; [exact Hev|].
  exact (IH (step_evolves _ _ _ _ _ Hs Hev)).
Qed.

Lemma evolves_here (ids cids : list string) (d : database) : evolves ids cids d d.
Proof.
  split; [reflexivity|].
  split; [apply post_step_here | apply content_step_here].
Qed.

Lemma step_settled (env : environment) (batch : list Due.t) (pid : string)
    (w w' : world) :
  step env batch w w' -> settled pid (db w) -> settled pid (db w').
Proof.
  intros [|q Hq|e _] Hs; cbn [db]; try exact Hs.
  destruct (fault env (length (trace w)) q); [exact Hs|].
  destruct q as [now|pid' st|uid|cid p]; simpl in Hq |- *; try exact Hs.
  destruct Hq as [_ Hst]. intros r Hin Hid. simpl in Hin.
  apply in_map_iff in Hin. destruct Hin as (r0 & Hr & Hin).
  destruct (Post.id r0 =? pid'); subst r.
  - exact Hst.
  - exact (Hs r0 Hin Hid).
Qed.

Lemma reaches_settled (env : environment) (batch : list Due.t) (pid : string)
    (w w' : world) :
  reaches env batch w w' -> settled pid (db w) -> settled pid (db w').
Proof.
  induction 1 as [|w w0 w1 Hs _ IH]; intros H; [exact H|].
  exact (IH (step_settled _ _ _ _ _ Hs H)).
Qed.

Lemma step_trace (env : environment) (batch : list Due.t) (w w' : world) :
  step env batch w w' ->
  exists evs, trace w' = trace w ++ evs /\
              Forall (event_of_run batch (social_accounts (db w))) evs.
Proof.
  intros [|q Hq|e He].
  - exists []. split; [symmetry; apply app_nil_r | constructor].
  - exists [Sent q]. split; [reflexivity|]. constructor; [exact Hq | constructor].
  - exists [e]. split; [reflexivity|]. constructor; [|constructor].
    destruct e; [contradiction | exact He | exact He].
Qed.

Lemma reaches_trace (env : environment) (batch : list Due.t) (w w' : world) :
  reaches env batch w w' ->
  exists evs, trace w' = trace w ++ evs /\
              Forall (event_of_run batch (social_accounts (db w))) evs.
Proof.
  induction 1 as [w|w w0 w1 Hs Hr IH].
  - exists []. split; [symmetry; apply app_nil_r | constructor].
  - destruct (step_trace _ _ _ _ Hs) as (evs0 & Ht0 & H0).
    destruct IH as (evs1 & Ht1 & H1).
    rewrite (step_accounts _ _ _ _ Hs) in H1.
    exists (evs0 ++ evs1). split.
    + rewrite Ht1, Ht0. symmetry. apply app_assoc.
    + apply Forall_app. now split.
Qed.

(** An invocation is the select of the due posts followed by a run on the
    posts it returned. *)
Lemma serve_reaches (env : environment) (api : variant_name -> publisher)
    (method : string) (w : world) :
  exists w1 : world,
    db w1 = db w /\
    (trace w1 = trace w \/
     trace w1 = trace w ++ [Sent (SelectDuePosts (clock env (ticks w)))]) /\
    reaches env (select_due_posts (clock env (ticks w)) (db w)) w1
            (snd (serve env api method w)).
Proof.
  rewrite serve_run. destruct (method =? "OPTIONS").
  { exists w. split; [reflexivity|]. split; [now left | apply reaches_here]. }
  cbv zeta.
  set (now := clock env (ticks w)).
  set (w1 := World (db w) (S (ticks w)) (trace w ++ [Sent (SelectDuePosts now)])).
  exists w1. split; [reflexivity|]. split; [now right|].
  destruct (fault env (length (trace w)) (SelectDuePosts now));
    [apply reaches_here|].
  destruct (select_due_posts now (db w)) as [|p batch] eqn:Hsel;
    [apply reaches_here|].
  assert (H := processPosts_reaches env api (p :: batch) (p :: batch) w1
                 (incl_refl _)).
  now destruct (processPosts env api (p :: batch) w1) as [[results|message] w2].
Qed.

Lemma serve_evolves (env : environment) (api : variant_name -> publisher)
    (method : string) (w : world) :
  evolves (map Due.id (select_due_posts (clock env (ticks w)) (db w)))
          (content_ids (select_due_posts (clock env (ticks w)) (db w)))
          (db w) (db (snd (serve env api method w))).
Proof.
  destruct (serve_reaches env api method w) as (w1 & Hdb & _ & Hreach).
  apply (reaches_evolves _ _ _ _ _ Hreach). rewrite Hdb. apply evolves_here.
Qed.

Lemma post_steps_keep (ids : list string) (l l' : list Post.t) :
  Forall2 (post_step ids) l l' ->
  map (set_status draft) l' = map (set_status draft) l.
Proof.
  induction 1 as [|r r' l l' Hr _ IH]; simpl; [reflexivity|].
  rewrite IH. f_equal. now destruct Hr as [->|(_ & st & _ & ->)].
Qed.

Lemma content_steps_keep (cids : list string) (l l' : list PostContent.t) :
  Forall2 (content_step cids) l l' ->
  map nested_content l' = map nested_content l /\
  map PostContent.post_id l' = map PostContent.post_id l.
Proof.
  induction 1 as [|r r' l l' Hr _ [IH1 IH2]]; simpl; [now split|].
  rewrite IH1, IH2. destruct Hr as [->|(_ & Hn & Hp)]; [now split|].
  now rewrite Hn, Hp.
Qed.

(** X1. Whatever the store answers, an invocation leaves the accounts
    table as it was and keeps the rows of the two other tables in place:
    the posts are the same once their statuses are put aside, and the
    content rows keep their id, post, platform, caption and hashtags.  A
    post changes only by getting the status [publishing], [published] or
    [failed], and only when it was selected; a content row changes only
    when it belongs to a selected post. *)
Theorem serve_frame (env : environment) (api : variant_name -> publisher)
    (method : string) (w : world) :
  let batch := select_due_posts (clock env (ticks w)) (db w) in
  let d := db w in
  let d' := db (snd (serve env api method w)) in
  social_accounts d' = social_accounts d /\
  map (set_status draft) (posts d') = map (set_status draft) (posts d) /\
  map nested_content (post_content d') = map nested_content (post_content d) /\
  map PostContent.post_id (post_content d') =
    map PostContent.post_id (post_content d) /\
  evolves (map Due.id batch) (content_ids batch) d d'.
Proof.
  intros batch d d'.
  assert (H := serve_evolves env api method w). fold batch d d' in H.
  destruct H as (Ha & Hp & Hc).
  destruct (content_steps_keep _ _ _ Hc) as [Hn Hpid].
  split; [exact Ha|]. split; [exact (post_steps_keep _ _ _ Hp)|].
  split; [exact Hn|]. split; [exact Hpid|].
  split; [exact Ha|]. split; [exact Hp | exact Hc].
Qed.

(** ** Selected posts leave the due set *)

Lemma written_not_due (t : timestamp) (r : Post.t) :
  written_status (Post.status r) -> is_due t r = false.
Proof. unfold is_due. now intros [->|[->| ->]]. Qed.

Lemma among_In (l : list string) (x : string) : among l x = true <-> In x l.
Proof.
  unfold among. rewrite existsb_exists. split.
  - intros (y & Hin & Heq). apply String.eqb_eq in Heq. now subst.
  - intros Hin. exists x. split; [exact Hin | apply String.eqb_refl].
Qed.

Section Settling.

Variable env : environment.
Variable api : variant_name -> publisher.

Lemma processPost_settles (post : Due.t) (w : world) :
  fault env (length (trace w)) (UpdatePostStatus (Due.id post) publishing) = None ->
  settled (Due.id post) (db (snd (processPost env api post w))).
Proof.
  intros Hf. unfold processPost, try_catch.
  rewrite (publishPost_accepted env api post w Hf). cbv zeta.
  set (w1 := World (update_post_status (Due.id post) publishing (db w)) (ticks w)
               (trace w ++ [Sent (UpdatePostStatus (Due.id post) publishing)])).
  set (w2 := World (db w1) (ticks w1)
               (trace w1 ++ [Sent (SelectActiveAccounts (Due.user_id post))])).
  assert (H1 : settled (Due.id post) (db w2)).
  { intros r Hin Hid. cbn [db w2 w1] in Hin. simpl in Hin.
    apply in_map_iff in Hin. destruct Hin as (r0 & Hr & Hin).
    destruct (Post.id r0 =? Due.id post) eqn:E; subst r.
    - now left.
    - apply String.eqb_neq in E. contradiction. }
  match goal with
  | |- context [publishContents env api post ?a (0, 0) ?rows w2] =>
      assert (H3 := publishContents_reaches env api [post] post a rows (0, 0) w2
                      (or_introl eq_refl) (incl_refl _));
      destruct (publishContents_sound env api post a rows 0 0 w2)
        as (s & f & w3 & evs & Hrun & _)
  end.
  rewrite Hrun in H3 |- *. cbn [snd fst] in H3 |- *.
  assert (Hsel : forall l,
            match fault env (length (trace w1))
                    (SelectActiveAccounts (Due.user_id post)) with
            | Some _ => None
            | None => Some (select_active_accounts (Due.user_id post) (db w1))
            end = Some l ->
            l = filter (fun a => (SocialAccount.user_id a =? Due.user_id post)
                                 && SocialAccount.is_active a)
                       (social_accounts (db w2))).
  { intros l Hl.
    destruct (fault env (length (trace w1))
                (SelectActiveAccounts (Due.user_id post))); [discriminate|].
    inversion Hl. reflexivity. }
  assert (H4 := reaches_settled _ _ _ _ _ (H3 Hsel) H1).
  apply (step_settled env [post] (Due.id post) w3); [|exact H4].
  apply step_update. simpl. split; [now left|].
  unfold finalStatus. destruct (Nat.eqb f 0); [right; now left|].
  destruct (Nat.ltb 0 s); [right; now left | right; now right].
Qed.

Lemma processPosts_settles (todo : list Due.t) :
  forall w : world,
  (forall n pid, fault env n (UpdatePostStatus pid publishing) = None) ->
  forall q, In q todo ->
  settled (Due.id q) (db (snd (processPosts env api todo w))).
Proof.
  induction todo as [|post rest IH]; intros w Hf q Hq; [contradiction|].
  assert (Hone := processPost_settles post w (Hf _ _)).
  destruct (processPost_sound env api post w) as (entry & w1 & evs & Hrun & _).
  rewrite Hrun in Hone. cbn [snd] in Hone.
  rewrite (processPosts_cons env api post rest entry w w1 Hrun).
  assert (Hreach := processPosts_reaches env api rest rest w1 (incl_refl _)).
  assert (Hrest := IH w1 Hf).
  destruct (processPosts env api rest w1) as [[results|message] w2];
    cbn [snd] in *;
    (destruct Hq as [<-|Hq];
     [exact (reaches_settled _ _ _ _ _ Hreach Hone) | exact (Hrest q Hq)]).
Qed.

End Settling.

Lemma due_after_run (t : timestamp) (ids : list string) (l l' : list Post.t) :
  Forall2 (post_step ids) l l' ->
  (forall r', In r' l' -> In (Post.id r') ids -> written_status (Post.status r')) ->
  filter (is_due t) l' =
  filter (fun r => is_due t r && negb (among ids (Post.id r))) l.
Proof.
  induction 1 as [|r r' l l' Hr _ IH]; intros Hset; [reflexivity|].
  simpl. rewrite IH by (intros x Hx; apply Hset; now right).
  destruct (among ids (Post.id r)) eqn:E.
  - rewrite andb_false_r.
    rewrite written_not_due; [reflexivity|].
    apply Hset; [now left|]. rewrite (post_step_id _ _ _ Hr).
    now apply among_In.
  - rewrite andb_true_r.
    destruct Hr as [->|(Hin & _)]; [reflexivity|].
    apply among_In in Hin. congruence.
Qed.




Lemma serve_due_after (env : environment) (api : variant_name -> publisher)
    (method : string) (w : world) (t : timestamp) :
  method <> "OPTIONS" ->
  fault env (length (trace w)) (SelectDuePosts (clock env (ticks w))) = None ->
  (forall n pid, fault env n (UpdatePostStatus pid publishing) = None) ->
  filter (is_due t) (posts (db (snd (serve env api method w)))) =
  filter (fun r => is_due t r
                   && negb (among (map Post.id (due_rows (clock env (ticks w)) (db w)))
                                  (Post.id r)))
         (posts (db w)).
Proof.
  intros Hm Hsel Hmark.
  set (now := clock env (ticks w)) in *.
  set (batch := select_due_posts now (db w)).
  assert (Hids : map Due.id batch = map Post.id (due_rows now (db w))).
  { unfold batch, select_due_posts. rewrite map_map. reflexivity. }
  destruct (serve_evolves env api method w) as (_ & Hposts & _).
  fold now in Hposts. fold batch in Hposts. rewrite Hids in Hposts.
  apply (due_after_run t _ _ _ Hposts).
  intros r' Hin Hid. rewrite <- Hids in Hid.
  apply in_map_iff in Hid. destruct Hid as (q & Hq & Hqin).
  revert Hin. rewrite serve_run.
  apply String.eqb_neq in Hm. rewrite Hm. cbv zeta. fold now. rewrite Hsel.
  fold batch. destruct batch as [|p rest] eqn:Hb; [contradiction|].
  match goal with
  | |- context [processPosts env api ?b ?w1] =>
      assert (Hset := processPosts_settles env api b w1 Hmark q Hqin);
      destruct (processPosts env api b w1) as [[results|message] w2]
  end; cbn [snd] in *; intros Hin; exact (Hset r' Hin (eq_sym Hq)).
Qed.

(** X2. When the store accepts the marking of posts as [publishing], a
    selected post is not due after the invocation, at whatever time one
    asks, and the other posts are due exactly as before: the posts due
    afterwards are the posts that were due and were not selected. *)
Theorem serve_selected_leave_due (env : environment)
    (api : variant_name -> publisher) (method : string) (w : world) :
  method <> "OPTIONS" ->
  fault env (length (trace w)) (SelectDuePosts (clock env (ticks w))) = None ->
  (forall n pid, fault env n (UpdatePostStatus pid publishing) = None) ->
  let selected := map Post.id (due_rows (clock env (ticks w)) (db w)) in
  forall t : timestamp,
    (forall r', In r' (posts (db (snd (serve env api method w)))) ->
                In (Post.id r') selected -> is_due t r' = false) /\
    filter (is_due t) (posts (db (snd (serve env api method w)))) =
    filter (fun r => is_due t r && negb (among selected (Post.id r)))
           (posts (db w)).
Proof.
  intros Hm Hsel Hmark selected t.
  assert (Heq := serve_due_after env api method w t Hm Hsel Hmark).
  fold selected in Heq. split; [|exact Heq].
  intros r' Hin Hid.
  destruct (is_due t r') eqn:Hdue; [|reflexivity]. exfalso.
  assert (Hf : In r' (filter (is_due t) (posts (db (snd (serve env api method w))))))
    by (apply filter_In; now split).
  rewrite Heq in Hf. apply filter_In in Hf. destruct Hf as [_ Hc].
  apply andb_true_iff in Hc. destruct Hc as [_ Hc].
  apply among_In in Hid. rewrite Hid in Hc. discriminate.
Qed.

Lemma serve_selected_leave_due_witness :
  filter (is_due 5000%Z)
         (posts (db (snd (serve Sample.quiet platform_api "POST" Sample.start)))) =
  [Sample.later].
Proof.
  destruct (serve_selected_leave_due Sample.quiet platform_api "POST" Sample.start
              ltac:(discriminate) eq_refl (fun _ _ => eq_refl) 5000%Z)
    as [_ H].
  exact H.
Defined.



(** ** The response *)

(** X4. The response is 200 or 500, and it is 500 exactly when the request
    is not a preflight and the select of the due posts fails: the body then
    carries the error's message ("Erreur serveur" when it is empty), the
    tables are untouched and nothing but the select was sent.  Whatever
    fails while the posts are processed, the response stays 200. *)
Theorem serve_status (env : environment) (api : variant_name -> publisher)
    (method : string) (w : world) :
  let now := clock env (ticks w) in
  let r := fst (serve env api method w) in
  let w' := snd (serve env api method w) in
  (status r = 200%Z \/ status r = 500%Z) /\
  (status r = 500%Z <->
   method <> "OPTIONS" /\
   fault env (length (trace w)) (SelectDuePosts now) <> None) /\
  (forall e, method <> "OPTIONS" ->
     fault env (length (trace w)) (SelectDuePosts now) = Some e ->
     body r = Failure (if e =? "" then "Erreur serveur" else e) /\
     db w' = db w /\
     trace w' = trace w ++ [Sent (SelectDuePosts now)]).
Proof.
  intros now r w'. unfold r, w'. rewrite serve_run. fold now.
  destruct (method =? "OPTIONS") eqn:Hm.
  - apply String.eqb_eq in Hm. cbn [fst snd status].
    split; [now left|]. split.
    + split; [discriminate | intros [H _]; contradiction].
    + intros e H. contradiction.
  - apply String.eqb_neq in Hm. cbv zeta.
    destruct (fault env (length (trace w)) (SelectDuePosts now)) as [e|] eqn:Hf.
    + cbn [fst snd status body db trace].
      split; [now right|]. split.
      * split; [intros _; split; [exact Hm | discriminate] | reflexivity].
      * intros e' _ He. inversion He; subst e'. repeat split.
    + assert (H200 :
        status (fst match select_due_posts now (db w) with
                    | [] => (nothing_to_publish,
                             World (db w) (S (ticks w))
                                   (trace w ++ [Sent (SelectDuePosts now)]))
                    | p :: l =>
                        match processPosts env api (p :: l)
                                (World (db w) (S (ticks w))
                                       (trace w ++ [Sent (SelectDuePosts now)])) with
                        | (Normal results, w2) =>
                            (Response 200
                               (Finished "Publication terminée"
                                         (length (p :: l)) results), w2)
                        | (Throw message, w2) =>
                            (Response 500
                               (Failure (if message =? "" then "Erreur serveur"
                                         else message)), w2)
                        end
                    end) = 200%Z).
      { destruct (select_due_posts now (db w)) as [|p l]; [reflexivity|].
        match goal with
        | |- context [processPosts env api ?b ?w1] =>
            destruct (processPosts_sound env api b w1)
              as (results & w2 & evs & Hrun & _)
        end.
        now rewrite Hrun. }
      split; [now left|]. split.
      * split; [rewrite H200; discriminate | intros [_ H]; contradiction].
      * intros e _ He. discriminate He.
Qed.

Lemma serve_status_witness :
  serve Sample.accounts_down platform_api "POST" Sample.start <>
    serve Sample.quiet platform_api "POST" Sample.start /\
  status (fst (serve Sample.accounts_down platform_api "POST" Sample.start)) = 200%Z /\
  body (fst (serve (Environment Sample.time (fun _ _ => Some "")) platform_api
                   "POST" Sample.start)) = Failure "Erreur serveur".
Proof.
  split; [vm_compute; discriminate|]. split.
  - destruct (serve_status Sample.accounts_down platform_api "POST" Sample.start)
      as ([H|H] & Hiff & _); [exact H|].
    apply Hiff in H. destruct H as [_ H]. exfalso. now apply H.
  - destruct (serve_status (Environment Sample.time (fun _ _ => Some ""))
                platform_api "POST" Sample.start) as (_ & _ & H).
    exact (proj1 (H "" ltac:(discriminate) eq_refl)).
Defined.

Section Summaries.

Variable env : environment.
Variable api : variant_name -> publisher.

Lemma processPost_entry (post : Due.t) (w : world) :
  exists entry w',
    processPost env api post w = (Normal entry, w') /\ entry_for post entry.
Proof.
  unfold processPost, try_catch.
  destruct (fault env (length (trace w))
              (UpdatePostStatus (Due.id post) publishing)) as [e|] eqn:Hf.
  - rewrite (publishPost_refused env api post w e Hf). unfold bind, ret.
    rewrite update_run. eexists _, _. split; [reflexivity|]. now split.
  - rewrite (publishPost_accepted env api post w Hf). cbv zeta.
    match goal with
    | |- context [publishContents env api post ?a (0, 0) ?rows ?w2] =>
        destruct (publishContents_sound env api post a rows 0 0 w2)
          as (s & f & w3 & evs & Hrun & Hsum & _)
    end.
    rewrite Hrun. eexists _, _. split; [reflexivity|].
    cbn [fst snd entry_for]. repeat split. exact Hsum.
Qed.

Lemma processPosts_entries (todo : list Due.t) :
  forall w : world,
  exists results w',
    processPosts env api todo w = (Normal results, w') /\
    Forall2 entry_for todo results.
Proof.
  induction todo as [|post rest IH]; intros w.
  - exists [], w. split; [reflexivity | constructor].
  - destruct (processPost_entry post w) as (entry & w1 & Hrun & Hentry).
    destruct (IH w1) as (results & w2 & Hrest & Hall).
    rewrite (processPosts_cons env api post rest entry w w1 Hrun), Hrest.
    exists (entry :: results), w2. split; [reflexivity|]. now constructor.
Qed.

End Summaries.

(** X5. A response that lists results has one entry per selected post, in
    the order of selection, and [processed] is their number, which is not 0.
    The entry of a post carries its id and its title, and when it carries
    counters they add up to the number of content rows of the post: every
    row was counted once, as a success or as a failure. *)
Theorem serve_summary (env : environment) (api : variant_name -> publisher)
    (method : string) (w : world) (message : string) (n : nat)
    (results : list result_entry) :
  body (fst (serve env api method w)) = Finished message n results ->
  n = length results /\ 0 < n /\
  Forall2 entry_for (select_due_posts (clock env (ticks w)) (db w)) results.
Proof.
  rewrite serve_run. destruct (method =? "OPTIONS"); [discriminate|]. cbv zeta.
  destruct (fault env (length (trace w)) (SelectDuePosts (clock env (ticks w))));
    [discriminate|].
  destruct (select_due_posts (clock env (ticks w)) (db w)) as [|p l];
    [discriminate|].
  match goal with
  | |- context [processPosts env api ?b ?w1] =>
      destruct (processPosts_entries env api b w1) as (results0 & w2 & Hrun & Hall)
  end.
  rewrite Hrun. cbn [fst body]. intros H. inversion H; subst.
  assert (Hlen := Forall2_length Hall).
  split; [exact Hlen|]. split; [simpl; lia | exact Hall].
Qed.

Lemma serve_summary_witness :
  Forall2 entry_for (select_due_posts 1000%Z Sample.store)
          [Counted "p1" "Launch" 1 1; Counted "p3" "Memo" 0 1].
Proof.
  exact (proj2 (proj2 (serve_summary Sample.quiet Sample.working_api "POST"
                         Sample.start "Publication terminée" 2
                         [Counted "p1" "Launch" 1 1; Counted "p3" "Memo" 0 1]
                         eq_refl))).
Defined.

(** X6. Every call of the publish operation made by an invocation is for a
    content row of a selected post, with that row's platform, caption and
    hashtags and that post's media references, and the account given to it
    is a row of the accounts table that belongs to the post's owner, is
    active and is for the row's platform. *)
Theorem serve_publishes_for_owner (env : environment)
    (api : variant_name -> publisher) (method : string) (w : world)
    (platform content : string) (hashtags : option (list string))
    (mediaIds : list string) (account : SocialAccount.t) :
  In (Publish platform content hashtags mediaIds account)
     (trace (snd (serve env api method w))) ->
  In (Publish platform content hashtags mediaIds account) (trace w) \/
  exists post row,
    In post (select_due_posts (clock env (ticks w)) (db w)) /\
    In row (Due.post_content post) /\
    platform = Content.platform row /\
    content = Content.content_text row /\
    hashtags = Content.hashtags row /\
    mediaIds = Due.media_ids post /\
    In account (social_accounts (db w)) /\
    SocialAccount.user_id account = Due.user_id post /\
    SocialAccount.is_active account = true /\
    SocialAccount.platform account = platform.
Proof.
  intros Hin.
  destruct (serve_reaches env api method w) as (w1 & Hdb & Ht1 & Hreach).
  destruct (reaches_trace _ _ _ _ Hreach) as (evs & Ht & Hev).
  rewrite Ht in Hin. apply in_app_or in Hin. destruct Hin as [Hin|Hin].
  - left. destruct Ht1 as [Ht1|Ht1]; rewrite Ht1 in Hin; [exact Hin|].
    apply in_app_or in Hin. destruct Hin as [Hin|[Hin|[]]];
      [exact Hin | discriminate].
  - right. rewrite Forall_forall in Hev. specialize (Hev _ Hin).
    rewrite Hdb in Hev. simpl in Hev.
    destruct Hev as (post & row & [Hp Hr] & H). exists post, row. tauto.
Qed.

Lemma serve_publishes_for_owner_witness :
  exists post row,
    In post (select_due_posts 1000%Z Sample.store) /\
    In row (Due.post_content post) /\
    Content.platform row = "instagram" /\
    SocialAccount.user_id Sample.alice_instagram = Due.user_id post.
Proof.
  destruct (serve_publishes_for_owner Sample.quiet platform_api "POST" Sample.start
              "instagram" "hello" (Some ["#a"; "#b"]) ["m1"] Sample.alice_instagram)
    as [[]|(post & row & Hp & Hr & Hpl & _ & _ & _ & _ & Hu & _)].
  - vm_compute. right. right. right. left. reflexivity.
  - exists post, row. repeat split; auto.
Defined.

(** ** The dispatcher as deployed *)

Lemma urls_kept_here (d : database) : urls_kept d d.
Proof.
  unfold urls_kept. induction (post_content d); constructor; [now split | assumption].
Qed.

Lemma urls_kept_status (pid : string) (st : post_status) (d d' : database) :
  urls_kept d d' -> urls_kept d (update_post_status pid st d').
Proof. exact (fun H => H). Qed.

Lemma urls_kept_error (cid : string) (p : content_patch) (d d' : database) :
  error_only p -> urls_kept d d' -> urls_kept d (update_post_content cid p d').
Proof.
  intros (Hu & Ha & _). unfold urls_kept. simpl.
  induction 1 as [|r r' l l' [H1 H2] _ IH]; simpl; constructor; [|exact IH].
  destruct (PostContent.id r' =? cid); [|now split].
  unfold apply_patch. simpl. rewrite Hu, Ha. now split.
Qed.

Lemma urls_kept_update (env : environment) (q : request) (d : database) (w : world) :
  match q with
  | UpdatePostContent _ p => error_only p
  | _ => True
  end ->
  urls_kept d (db w) -> urls_kept d (db (snd (update env q w))).
Proof.
  intros Hq H. rewrite update_run. cbn [snd db].
  destruct (fault env (length (trace w)) q); [exact H|].
  destruct q; simpl; try exact H. now apply urls_kept_error.
Qed.

Section Deployed.

Variable env : environment.

Lemma failing_publishContent (batch : list Due.t) (post : Due.t)
    (socialAccounts : option (list SocialAccount.t)) (s f : nat)
    (content : Content.t) (d : database) (w : world) :
  urls_kept d (db w) ->
  exists w' evs,
    publishContent env platform_api post socialAccounts (s, f) content w =
      (Normal (s, S f), w') /\
    ticks w' = ticks w /\
    trace w' = trace w ++ evs /\
    Forall (failing_event batch) evs /\
    urls_kept d (db w').
Proof.
  intros Hk. rewrite publishContent_run.
  destruct (findAccount socialAccounts (Content.platform content)) as [account|].
  - rewrite publishToSocialMedia_run.
    destruct (Content.hashtags content) as [tags|];
      [destruct (variant_of (Content.platform content)) as [v|]|].
    + assert (Hthrow : exists message,
                platform_api v (fullContent (Content.content_text content) tags)
                             (Due.media_ids post) account = Throw message)
        by (destruct v; eexists; reflexivity).
      destruct Hthrow as (message & ->).
      eexists _, _. split; [reflexivity|]. rewrite update_ticks, update_trace.
      cbn [ticks trace]. split; [reflexivity|].
      split; [rewrite <- app_assoc; reflexivity|]. split.
      * repeat constructor. now exists message.
      * apply urls_kept_update; [|exact Hk]. repeat split. now exists message.
    + eexists _, _. split; [reflexivity|]. rewrite update_ticks, update_trace.
      cbn [ticks trace]. split; [reflexivity|].
      split; [rewrite <- app_assoc; reflexivity|]. split.
      * repeat constructor. eexists; reflexivity.
      * apply urls_kept_update; [|exact Hk]. repeat split. eexists; reflexivity.
    + eexists _, _. split; [reflexivity|]. rewrite update_ticks, update_trace.
      cbn [ticks trace]. split; [reflexivity|].
      split; [rewrite <- app_assoc; reflexivity|]. split.
      * repeat constructor. eexists; reflexivity.
      * apply urls_kept_update; [|exact Hk]. repeat split. eexists; reflexivity.
  - eexists _, _. split; [reflexivity|]. rewrite update_ticks, update_trace.
    split; [reflexivity|]. split; [reflexivity|]. split.
    + repeat constructor. eexists; reflexivity.
    + apply urls_kept_update; [|exact Hk]. repeat split. eexists; reflexivity.
Qed.

Lemma failing_publishContents (batch : list Due.t) (post : Due.t)
    (socialAccounts : option (list SocialAccount.t)) (d : database)
    (rows : list Content.t) :
  forall (s f : nat) (w : world),
  urls_kept d (db w) ->
  exists w' evs,
    publishContents env platform_api post socialAccounts (s, f) rows w =
      (Normal (s, f + length rows), w') /\
    ticks w' = ticks w /\
    trace w' = trace w ++ evs /\
    Forall (failing_event batch) evs /\
    urls_kept d (db w').
Proof.
  induction rows as [|content rest IH]; intros s f w Hk.
  - exists w, []. simpl. unfold ret. rewrite Nat.add_0_r, app_nil_r.
    repeat split; [constructor | exact Hk].
  - destruct (failing_publishContent batch post socialAccounts s f content d w Hk)
      as (w1 & evs1 & Hrun & Hti & Htr & Hev & Hk1).
    rewrite (publishContents_cons env platform_api post socialAccounts (s, f)
               (s, S f) content rest w w1 Hrun).
    destruct (IH s (S f) w1 Hk1) as (w2 & evs2 & Hrun2 & Hti2 & Htr2 & Hev2 & Hk2).
    exists w2, (evs1 ++ evs2). rewrite Hrun2. simpl length.
    split; [do 3 f_equal; lia|]. split; [congruence|].
    split; [rewrite Htr2, Htr; symmetry; apply app_assoc|].
    split; [apply Forall_app; now split | exact Hk2].
Qed.

Lemma failing_processPost (batch : list Due.t) (post : Due.t) (d : database)
    (w : world) :
  In post batch ->
  urls_kept d (db w) ->
  exists entry w' evs,
    processPost env platform_api post w = (Normal entry, w') /\
    failing_entry post entry /\
    ticks w' = ticks w /\
    trace w' = trace w ++ evs /\
    Forall (failing_event batch) evs /\
    urls_kept d (db w').
Proof.
  intros Hpost Hk. unfold processPost, try_catch.
  destruct (fault env (length (trace w))
              (UpdatePostStatus (Due.id post) publishing)) as [e|] eqn:Hf.
  - rewrite (publishPost_refused env platform_api post w e Hf). unfold bind, ret.
    rewrite update_run. cbn [trace db ticks].
    eexists _, _, _. split; [reflexivity|].
    split; [right; now exists e|]. split; [reflexivity|].
    split; [rewrite <- app_assoc; reflexivity|]. split.
    + constructor; [now left|]. constructor; [right; now left | constructor].
    + now destruct (fault env _ (UpdatePostStatus (Due.id post) failed)).
  - rewrite (publishPost_accepted env platform_api post w Hf). cbv zeta.
    match goal with
    | |- context [publishContents env platform_api post ?a (0, 0) ?rows ?w2] =>
        destruct (failing_publishContents batch post a d rows 0 0 w2 Hk)
          as (w3 & evs & Hrun & Hti & Htr & Hev & Hk3)
    end.
    rewrite Hrun. cbn [fst snd]. rewrite Nat.add_0_l.
    eexists _, _, _. split; [reflexivity|].
    split; [now left|]. rewrite update_ticks, update_trace, Htr, Hti.
    cbn [ticks trace]. split; [reflexivity|].
    split; [rewrite <- !app_assoc; reflexivity|]. split.
    + constructor; [now left|]. constructor; [exact I|].
      apply Forall_app. split; [exact Hev|]. constructor; [|constructor].
      destruct (Due.post_content post) as [|c l] eqn:Hrows.
      * right. right. split; [reflexivity|]. now exists post.
      * right. now left.
    + apply urls_kept_update; [exact I | exact Hk3].
Qed.

Lemma failing_processPosts (batch : list Due.t) (d : database) (todo : list Due.t) :
  forall w : world,
  incl todo batch ->
  urls_kept d (db w) ->
  exists results w' evs,
    processPosts env platform_api todo w = (Normal results, w') /\
    Forall2 failing_entry todo results /\
    ticks w' = ticks w /\
    trace w' = trace w ++ evs /\
    Forall (failing_event batch) evs /\
    urls_kept d (db w').
Proof.
  induction todo as [|post rest IH]; intros w Hincl Hk.
  - exists [], w, []. simpl. unfold ret. rewrite app_nil_r.
    repeat split; [constructor | constructor | exact Hk].
  - destruct (failing_processPost batch post d w (Hincl post (or_introl eq_refl)) Hk)
      as (entry & w1 & evs1 & Hrun & Hentry & Hti & Htr & Hev & Hk1).
    destruct (IH w1 (fun q Hq => Hincl q (or_intror Hq)) Hk1)
      as (results & w2 & evs2 & Hrest & Hall & Hti2 & Htr2 & Hev2 & Hk2).
    rewrite (processPosts_cons env platform_api post rest entry w w1 Hrun), Hrest.
    exists (entry :: results), w2, (evs1 ++ evs2).
    split; [reflexivity|]. split; [now constructor|]. split; [congruence|].
    split; [rewrite Htr2, Htr; symmetry; apply app_assoc|].
    split; [apply Forall_app; now split | exact Hk2].
Qed.

End Deployed.

(** X7. With the per-platform functions of the repository nothing is ever
    published.  In every invocation of the dispatcher an entry with counters
    has 0 successes and as many failures as the post has content rows; the
    updates of content rows only set an error message, so every stored
    [published_url] and [published_at] stays as it was; the status
    [published] is written only for a selected post without any content
    row; and the clock is read once at most. *)
Theorem dispatcher_never_publishes (env : environment) (method : string)
    (w : world) :
  let batch := select_due_posts (clock env (ticks w)) (db w) in
  let r := fst (dispatcher env method w) in
  let w' := snd (dispatcher env method w) in
  (forall message n results,
     body r = Finished message n results -> Forall2 failing_entry batch results) /\
  Forall (failing_event batch) (skipn (length (trace w)) (trace w')) /\
  urls_kept (db w) (db w') /\
  ticks w' <= S (ticks w).
Proof.
  intros batch r w'. unfold r, w', dispatcher. rewrite serve_run.
  destruct (method =? "OPTIONS").
  { cbn [fst snd body]. rewrite skipn_all.
    repeat split; [discriminate | constructor | apply urls_kept_here | lia]. }
  cbv zeta. fold batch.
  set (now := clock env (ticks w)).
  set (w1 := World (db w) (S (ticks w)) (trace w ++ [Sent (SelectDuePosts now)])).
  assert (Hsel : skipn (length (trace w)) (trace w1) = [Sent (SelectDuePosts now)]).
  { cbn [trace w1]. now rewrite skipn_app, skipn_all, Nat.sub_diag. }
  destruct (fault env (length (trace w)) (SelectDuePosts now)).
  { cbn [fst snd body]. rewrite Hsel.
    repeat split; [discriminate | repeat constructor | apply urls_kept_here
                   | cbn; lia]. }
  destruct batch as [|p l] eqn:Hb.
  { cbn [fst snd body nothing_to_publish]. rewrite Hsel.
    repeat split; [discriminate | repeat constructor | apply urls_kept_here
                   | cbn; lia]. }
  destruct (failing_processPosts env (p :: l) (db w) (p :: l) w1 (incl_refl _)
              (urls_kept_here (db w)))
    as (results & w2 & evs & Hrun & Hall & Hti & Htr & Hev & Hk).
  rewrite Hrun. cbn [fst snd body].
  split; [intros message n results0 H; inversion H; subst; exact Hall|].
  split.
  - rewrite Htr. cbn [trace w1].
    rewrite <- app_assoc, skipn_app, skipn_all, Nat.sub_diag. simpl.
    constructor; [exact I | exact Hev].
  - split; [exact Hk | rewrite Hti; cbn; lia].
Qed.

Lemma dispatcher_never_publishes_witness :
  Forall2 failing_entry (select_due_posts 1000%Z Sample.store)
          [Counted "p1" "Launch" 0 2; Counted "p3" "Memo" 0 1].
Proof.
  destruct (dispatcher_never_publishes Sample.quiet "POST" Sample.start)
    as (H & _).
  exact (H "Publication terminée" 2 _ eq_refl).
Defined.

(** * The content optimizer *)

Lemma string_app_assoc (a b c : string) : ((a ++ b) ++ c = a ++ (b ++ c))%string.
Proof. induction a as [|x a IH]; simpl; [reflexivity | now rewrite IH]. Qed.

Lemma prefix_app (s t : string) : prefix s (s ++ t) = true.
Proof.
  induction s as [|c s IH]; simpl; [now destruct t|].
  destruct (ascii_dec c c); [exact IH | contradiction].
Qed.

Lemma upto_last_brace_none (s : string) :
  Optimizer.upto_last_brace s = None <-> Optimizer.occurs "}" s = false.
Proof.
  induction s as [|c s IH]; simpl; [tauto|].
  destruct (Optimizer.upto_last_brace s) as [m|].
  - split; [discriminate|]. intros H. apply orb_false_iff in H.
    destruct H as [_ H]. apply IH in H. discriminate.
  - destruct (Ascii.eqb c "}"); simpl; [split; discriminate|].
    split; [intros _; now apply IH | reflexivity].
Qed.

Lemma upto_last_brace_found (mid post : string) :
  Optimizer.occurs "}" post = false ->
  Optimizer.upto_last_brace (mid ++ "}" ++ post) = Some (mid ++ "}")%string.
Proof.
  intros Hpost. induction mid as [|c mid IH]; simpl in *.
  - apply upto_last_brace_none in Hpost. now rewrite Hpost.
  - now rewrite IH.
Qed.

Lemma upto_last_brace_split (s m : string) :
  Optimizer.upto_last_brace s = Some m ->
  exists mid post,
    (s = mid ++ "}" ++ post)%string /\ Optimizer.occurs "}" post = false /\
    (m = mid ++ "}")%string.
Proof.
  revert m. induction s as [|c s IH]; intros m; simpl; [discriminate|].
  destruct (Optimizer.upto_last_brace s) as [m0|] eqn:E.
  - intros H. inversion H; subst m.
    destruct (IH m0 eq_refl) as (mid & post & Hs & Hp & Hm).
    exists (String c mid), post. simpl. now rewrite Hs, Hm.
  - destruct (Ascii.eqb c "}") eqn:Ec; [|discriminate].
    intros H. inversion H; subst m. apply Ascii.eqb_eq in Ec. subst c.
    exists EmptyString, s. simpl. split; [reflexivity|].
    split; [now apply upto_last_brace_none | reflexivity].
Qed.

Lemma match_braces_found (pre mid post : string) :
  Optimizer.occurs "{" pre = false ->
  Optimizer.occurs "}" post = false ->
  Optimizer.match_braces (pre ++ "{" ++ mid ++ "}" ++ post) =
    Some ("{" ++ mid ++ "}")%string.
Proof.
  intros Hpre Hpost. induction pre as [|c pre IH].
  - change (Optimizer.match_braces (String "{" (mid ++ "}" ++ post)) =
            Some (String "{" (mid ++ "}"))).
    cbn [Optimizer.match_braces].
    now rewrite Ascii.eqb_refl, (upto_last_brace_found mid post Hpost).
  - simpl in Hpre. apply orb_false_iff in Hpre. destruct Hpre as [Hc Hpre].
    change (Optimizer.match_braces (String c (pre ++ "{" ++ mid ++ "}" ++ post)) =
            Some ("{" ++ mid ++ "}")%string).
    cbn [Optimizer.match_braces]. rewrite Hc. now apply IH.
Qed.

Lemma match_braces_split (s m : string) :
  Optimizer.match_braces s = Some m ->
  exists pre mid post,
    (s = pre ++ "{" ++ mid ++ "}" ++ post)%string /\
    Optimizer.occurs "{" pre = false /\ Optimizer.occurs "}" post = false /\
    (m = "{" ++ mid ++ "}")%string.
Proof.
  revert m. induction s as [|c s IH]; intros m; simpl; [discriminate|].
  destruct (Ascii.eqb c "{") eqn:Ec.
  - destruct (Optimizer.upto_last_brace s) as [m0|] eqn:E; [|discriminate].
    intros H. inversion H; subst m. apply Ascii.eqb_eq in Ec. subst c.
    destruct (upto_last_brace_split s m0 E) as (mid & post & Hs & Hp & Hm).
    exists EmptyString, mid, post. simpl. now rewrite Hs, Hm.
  - intros H. destruct (IH m H) as (pre & mid & post & Hs & Hpre & Hpost & Hm).
    exists (String c pre), mid, post. simpl. rewrite Ec, Hs. auto.
Qed.

Lemma occurs_app (c : ascii) (a b : string) :
  Optimizer.occurs c (a ++ b) = Optimizer.occurs c a || Optimizer.occurs c b.
Proof.
  induction a as [|x a IH]; simpl; [reflexivity|].
  now rewrite IH, orb_assoc.
Qed.

Lemma match_braces_none (s : string) :
  Optimizer.match_braces s = None <->
  forall a b c, (s <> a ++ "{" ++ b ++ "}" ++ c)%string.
Proof.
  split.
  - induction s as [|x s IH]; simpl; intros H a b c Hs.
    + destruct a; discriminate.
    + destruct (Ascii.eqb x "{") eqn:Ex.
      * destruct (Optimizer.upto_last_brace s) as [m|] eqn:E; [discriminate|].
        apply upto_last_brace_none in E.
        destruct a as [|y a]; simpl in Hs; inversion Hs; subst.
        -- rewrite occurs_app in E. simpl in E.
           rewrite orb_true_r in E. discriminate.
        -- repeat (rewrite occurs_app in E; simpl in E).
           rewrite !orb_true_r in E. discriminate.
      * destruct a as [|y a]; simpl in Hs; inversion Hs; subst.
        -- discriminate.
        -- exact (IH H a b c eq_refl).
  - intros H. destruct (Optimizer.match_braces s) as [m|] eqn:E; [|reflexivity].
    destruct (match_braces_split s m E) as (pre & mid & post & Hs & _).
    exfalso. exact (H pre mid post Hs).
Qed.

(** X8. The optimizer answers 200, 400 or 500.  It calls the API at most
    once, and only for a request whose body could be read, whose content is
    not empty and whose list of platforms is not empty, when a non-empty key
    is configured; the call carries that key and the prompt built from the
    display names of the platforms and the content.  A 400 answer carries
    the fixed message and comes without any call. *)
Theorem optimizer_calls (J : Type) (JSON_parse : string -> option J)
    (ANTHROPIC_API_KEY : option string)
    (fetch : Optimizer.api_call -> Optimizer.api_answer)
    (method : string) (json : completion OptimizeRequest.t) :
  let r := fst (Optimizer.serve J JSON_parse ANTHROPIC_API_KEY fetch method json) in
  let calls :=
    snd (Optimizer.serve J JSON_parse ANTHROPIC_API_KEY fetch method json) in
  (Optimizer.status r = 200%Z \/ Optimizer.status r = 400%Z \/
   Optimizer.status r = 500%Z) /\
  (calls = [] \/
   exists key content platforms,
     method <> "OPTIONS" /\
     json = Normal (OptimizeRequest.Build (Some content) (Some platforms)) /\
     content <> "" /\ platforms <> [] /\
     ANTHROPIC_API_KEY = Some key /\ key <> "" /\
     calls = [Optimizer.ApiCall key "claude-3-5-sonnet-20241022" 4096
                (Optimizer.prompt_for (Optimizer.platformNames platforms) content)]) /\
  (Optimizer.status r = 400%Z ->
   calls = [] /\ Optimizer.body r = Optimizer.Problem "Contenu et plateformes requis").
Proof.
  unfold Optimizer.serve.
  destruct (method =? "OPTIONS") eqn:Hm.
  { cbn. repeat split; try tauto; try discriminate. }
  apply String.eqb_neq in Hm.
  destruct json as [[[content|] [platforms|]]|message];
    try (cbn; repeat split; try tauto; discriminate).
  cbn [OptimizeRequest.content OptimizeRequest.platforms].
  destruct (content =? "") eqn:Hc; cbn [orb];
    [cbn; repeat split; tauto|].
  destruct platforms as [|p l]; cbn [length Nat.eqb];
    [cbn; repeat split; tauto|].
  apply String.eqb_neq in Hc.
  destruct ANTHROPIC_API_KEY as [key|];
    [|cbn; repeat split; try tauto; discriminate].
  destruct (key =? "") eqn:Hke;
    [cbn; repeat split; try tauto; discriminate|].
  apply String.eqb_neq in Hke. cbv zeta.
  destruct (fetch _) as [message|[text|message]|[text|message]];
    cbn [fst snd Optimizer.status Optimizer.server_error Optimizer.body];
    (split; [tauto|]);
    (split; [right; exists key, content, (p :: l);
             repeat split; auto; discriminate | discriminate]).
Qed.

Lemma optimizer_calls_witness :
  snd (Optimizer.serve string OptimizerSample.accept (Some "sk-test")
         OptimizerSample.chatty "POST" OptimizerSample.request) =
  [Optimizer.ApiCall "sk-test" "claude-3-5-sonnet-20241022" 4096
     (Optimizer.prompt_for "Instagram, mastodon" "Bague en or")].
Proof.
  destruct (optimizer_calls string OptimizerSample.accept (Some "sk-test")
              OptimizerSample.chatty "POST" OptimizerSample.request)
    as (_ & [H|(key & content & platforms & _ & Hj & _ & _ & Hk & _ & Hcalls)] & _).
  - discriminate H.
  - inversion Hj; subst. inversion Hk; subst. exact Hcalls.
Defined.

Lemma generated_entries (make : string -> string -> PlatformOptimization.t)
    (content : string) (platforms : list string) :
  (forall p, PlatformOptimization.platform (make content p) = p) ->
  (forall p, prefix content (PlatformOptimization.content (make content p)) = true /\
             (0 <= PlatformOptimization.seo_score (make content p) <= 100)%Z /\
             PlatformOptimization.hashtags (make content p) <> []) ->
  map PlatformOptimization.platform (map (make content) platforms) = platforms /\
  Forall (fun o => prefix content (PlatformOptimization.content o) = true /\
                   (0 <= PlatformOptimization.seo_score o <= 100)%Z /\
                   PlatformOptimization.hashtags o <> [])
         (map (make content) platforms).
Proof.
  intros Hp Hall. split.
  - rewrite map_map. induction platforms as [|p l IH]; simpl;
      [reflexivity | now rewrite Hp, IH].
  - apply Forall_forall. intros o Ho. apply in_map_iff in Ho.
    destruct Ho as (p & <- & _). apply Hall.
Qed.

Lemma without_key_entry (content p : string) :
  prefix content (PlatformOptimization.content (Optimizer.without_key content p)) = true /\
  (0 <= PlatformOptimization.seo_score (Optimizer.without_key content p) <= 100)%Z /\
  PlatformOptimization.hashtags (Optimizer.without_key content p) <> [].
Proof. split; [apply prefix_app|]. split; [simpl; lia | discriminate]. Qed.

Lemma unparsed_entry (content p : string) :
  prefix content (PlatformOptimization.content (Optimizer.unparsed content p)) = true /\
  (0 <= PlatformOptimization.seo_score (Optimizer.unparsed content p) <= 100)%Z /\
  PlatformOptimization.hashtags (Optimizer.unparsed content p) <> [].
Proof. split; [apply prefix_app|]. split; [simpl; lia | discriminate]. Qed.

(** X9. When the optimizer itself writes the list of optimizations (no key
    is configured, or the answer of the API could not be parsed), the
    response is 200 and lists exactly one entry per requested platform, in
    the order of the request and under the requested names; the content of
    every entry starts with the content of the request, its score lies
    between 0 and 100 and it has hashtags.  The entries are those of the
    missing key, without any call to the API, or those of the unparsed
    answer, after one call. *)
Theorem optimizer_entries (J : Type) (JSON_parse : string -> option J)
    (ANTHROPIC_API_KEY : option string)
    (fetch : Optimizer.api_call -> Optimizer.api_answer)
    (method : string) (json : completion OptimizeRequest.t)
    (entries : list PlatformOptimization.t) :
  Optimizer.body
    (fst (Optimizer.serve J JSON_parse ANTHROPIC_API_KEY fetch method json)) =
    Optimizer.Optimizations entries ->
  exists content platforms,
    json = Normal (OptimizeRequest.Build (Some content) (Some platforms)) /\
    Optimizer.status
      (fst (Optimizer.serve J JSON_parse ANTHROPIC_API_KEY fetch method json)) =
      200%Z /\
    map PlatformOptimization.platform entries = platforms /\
    Forall (fun o => prefix content (PlatformOptimization.content o) = true /\
                     (0 <= PlatformOptimization.seo_score o <= 100)%Z /\
                     PlatformOptimization.hashtags o <> [])
           entries /\
    (entries = map (Optimizer.without_key content) platforms /\
     snd (Optimizer.serve J JSON_parse ANTHROPIC_API_KEY fetch method json) = []
     \/
     entries = map (Optimizer.unparsed content) platforms /\
     length (snd (Optimizer.serve J JSON_parse ANTHROPIC_API_KEY fetch method json))
       = 1).
Proof.
  unfold Optimizer.serve.
  destruct (method =? "OPTIONS"); [discriminate|].
  destruct json as [[[content|] [platforms|]]|message]; try discriminate.
  cbn [OptimizeRequest.content OptimizeRequest.platforms].
  destruct ((content =? "") || Nat.eqb (length platforms) 0); [discriminate|].
  assert (Hkeyless :
            @Optimizer.Optimizations J (map (Optimizer.without_key content) platforms) =
              Optimizer.Optimizations entries ->
            exists content0 platforms0,
              Normal (OptimizeRequest.Build (Some content) (Some platforms)) =
                Normal (OptimizeRequest.Build (Some content0) (Some platforms0)) /\
              200%Z = 200%Z /\
              map PlatformOptimization.platform entries = platforms0 /\
              Forall (fun o => prefix content0 (PlatformOptimization.content o) = true /\
                               (0 <= PlatformOptimization.seo_score o <= 100)%Z /\
                               PlatformOptimization.hashtags o <> []) entries /\
              (entries = map (Optimizer.without_key content0) platforms0 /\
               @nil Optimizer.api_call = []
               \/ entries = map (Optimizer.unparsed content0) platforms0 /\
                  length (@nil Optimizer.api_call) = 1)).
  { intros H. inversion H; subst entries. exists content, platforms.
    destruct (generated_entries Optimizer.without_key content platforms
                (fun p => eq_refl) (without_key_entry content)) as [H1 H2].
    split; [reflexivity|]. split; [reflexivity|]. split; [exact H1|].
    split; [exact H2|]. left. now split. }
  destruct ANTHROPIC_API_KEY as [key|]; [|exact Hkeyless].
  destruct (key =? ""); [exact Hkeyless|].
  cbv zeta.
  destruct (fetch _) as [message|[text|message]|[text|message]];
    try discriminate.
  cbn [fst snd Optimizer.body Optimizer.status]. intros H.
  assert (Hfall : entries = map (Optimizer.unparsed content) platforms).
  { unfold Optimizer.result_of in H.
    destruct text as [text|]; [|now inversion H].
    destruct (Optimizer.match_braces text) as [m|]; [|now inversion H].
    destruct (JSON_parse m); [discriminate | now inversion H]. }
  subst entries. exists content, platforms.
  destruct (generated_entries Optimizer.unparsed content platforms
              (fun p => eq_refl) (unparsed_entry content)) as [H1 H2].
  split; [reflexivity|]. split; [reflexivity|]. split; [exact H1|].
  split; [exact H2|]. right. now split.
Qed.

Lemma optimizer_entries_witness :
  exists content platforms,
    OptimizerSample.request =
      Normal (OptimizeRequest.Build (Some content) (Some platforms)) /\
    map PlatformOptimization.platform
        (map (Optimizer.unparsed "Bague en or") ["instagram"; "mastodon"]) =
      platforms.
Proof.
  destruct (optimizer_entries string OptimizerSample.refuse (Some "sk-test")
              OptimizerSample.chatty "POST" OptimizerSample.request
              (map (Optimizer.unparsed "Bague en or") ["instagram"; "mastodon"])
              eq_refl)
    as (content & platforms & Hj & _ & Hp & _).
  exists content, platforms. now split.
Defined.

(** X10. An answer of the API that could be read never turns into an
    error.  Of its text only the span from the first opening brace to the
    last closing brace is given to the JSON parser, whatever prose stands
    before and after; what the parser returns is sent back as it is, and
    when the parser throws, or when no closing brace follows an opening
    one, the response is still 200, with the entries of an unparsed
    answer. *)
Theorem optimizer_strips_prose (J : Type) (JSON_parse : string -> option J)
    (fetch : Optimizer.api_call -> Optimizer.api_answer)
    (method key content : string) (platforms : list string) (text : string) :
  method <> "OPTIONS" -> content <> "" -> platforms <> [] -> key <> "" ->
  fetch (Optimizer.ApiCall key "claude-3-5-sonnet-20241022" 4096
           (Optimizer.prompt_for (Optimizer.platformNames platforms) content)) =
    Optimizer.Ok (Normal (Some text)) ->
  let r := fst (Optimizer.serve J JSON_parse (Some key) fetch method
                  (Normal (OptimizeRequest.Build (Some content) (Some platforms)))) in
  let fallback :=
    Optimizer.Optimizations (map (Optimizer.unparsed content) platforms) in
  Optimizer.status r = 200%Z /\
  (forall pre mid post,
     (text = pre ++ "{" ++ mid ++ "}" ++ post)%string ->
     Optimizer.occurs "{" pre = false -> Optimizer.occurs "}" post = false ->
     Optimizer.body r =
       match JSON_parse ("{" ++ mid ++ "}")%string with
       | Some result => Optimizer.Parsed result
       | None => fallback
       end) /\
  ((forall a b c, text <> a ++ "{" ++ b ++ "}" ++ c)%string ->
   Optimizer.body r = fallback).
Proof.
  intros Hm Hc Hp Hk Hfetch r fallback. unfold r, Optimizer.serve.
  apply String.eqb_neq in Hm, Hc, Hk. rewrite Hm.
  cbn [OptimizeRequest.content OptimizeRequest.platforms]. rewrite Hc, Hk.
  destruct platforms as [|p l]; [contradiction|].
  cbn [length Nat.eqb orb]. cbv zeta. rewrite Hfetch.
  cbn [fst Optimizer.status Optimizer.body Optimizer.result_of].
  split; [reflexivity|]. split.
  - intros pre mid post -> Hpre Hpost.
    now rewrite (match_braces_found pre mid post Hpre Hpost).
  - intros Hno. apply match_braces_none in Hno. now rewrite Hno.
Qed.

Lemma optimizer_strips_prose_witness :
  Optimizer.body
    (fst (Optimizer.serve string OptimizerSample.accept (Some "sk-test")
            OptimizerSample.chatty "POST" OptimizerSample.request)) =
  Optimizer.Parsed "{x}".
Proof.
  destruct (optimizer_strips_prose string OptimizerSample.accept
              OptimizerSample.chatty "POST" "sk-test" "Bague en or"
              ["instagram"; "mastodon"] "Voici: {x} fin"
              ltac:(discriminate) ltac:(discriminate) ltac:(discriminate)
              ltac:(discriminate) eq_refl)
    as (_ & H & _).
  exact (H "Voici: " "x" " fin" eq_refl eq_refl eq_refl).
Defined.

(** * The editor *)

Lemma map_platform_filter (platformId : string) (l : list PlatformContent.t) :
  map PlatformContent.platform
      (filter (fun pc => negb (PlatformContent.platform pc =? platformId)) l) =
  filter (fun id => negb (id =? platformId)) (map PlatformContent.platform l).
Proof.
  induction l as [|pc l IH]; simpl; [reflexivity|].
  destruct (PlatformContent.platform pc =? platformId); simpl; now rewrite IH.
Qed.

Lemma selected_spec (platformId : string) (l : list string) :
  existsb (fun id => id =? platformId) l = true <-> In platformId l.
Proof.
  rewrite existsb_exists. split.
  - intros (x & Hin & Heq). apply String.eqb_eq in Heq. now subst.
  - intros Hin. exists platformId. split; [exact Hin | apply String.eqb_refl].
Qed.

Lemma map_platform_apply (optimizations : list PlatformOptimization.t)
    (l : list PlatformContent.t) :
  map PlatformContent.platform (CreatePost.applyOptimizations optimizations l) =
  map PlatformContent.platform l.
Proof.
  unfold CreatePost.applyOptimizations. rewrite map_map.
  apply map_ext. intros pc. now destruct (find _ optimizations).
Qed.

Lemma act_selection (a : CreatePost.action) (st : CreatePost.state) :
  NoDup (CreatePost.selectedPlatforms st) ->
  NoDup (CreatePost.selectedPlatforms (CreatePost.act a st)).
Proof.
  intros Hnd. destruct a as [platformId|platform content|optimizations|];
    try exact Hnd.
  cbn [CreatePost.act]. unfold CreatePost.togglePlatform.
  destruct (existsb (fun id => id =? platformId)
                    (CreatePost.selectedPlatforms st)) eqn:E;
    cbn [CreatePost.selectedPlatforms].
  - now apply NoDup_filter.
  - apply NoDup_app; [exact Hnd | constructor; [intros []|constructor] |].
    intros x Hx [<-|[]]. apply selected_spec in Hx. congruence.
Qed.

Lemma act_limits (a : CreatePost.action) (st : CreatePost.state) :
  Forall (fun pc => PlatformContent.characterLimit pc =
                    CreatePost.limit_of (PlatformContent.platform pc))
         (CreatePost.platformContent st) ->
  Forall (fun pc => PlatformContent.characterLimit pc =
                    CreatePost.limit_of (PlatformContent.platform pc))
         (CreatePost.platformContent (CreatePost.act a st)).
Proof.
  intros IH. destruct a as [platformId|platform content|optimizations|];
    cbn [CreatePost.act].
  - unfold CreatePost.togglePlatform.
    destruct (existsb (fun id => id =? platformId)
                      (CreatePost.selectedPlatforms st));
      cbn [CreatePost.platformContent].
    + rewrite Forall_forall in IH |- *. intros pc Hpc.
      apply filter_In in Hpc. now apply IH.
    + apply Forall_app. split; [exact IH | repeat constructor].
  - cbn [CreatePost.updatePlatformContent CreatePost.platformContent].
    rewrite Forall_forall in IH |- *. intros pc Hpc.
    apply in_map_iff in Hpc. destruct Hpc as (pc0 & <- & Hin).
    specialize (IH pc0 Hin).
    now destruct (PlatformContent.platform pc0 =? platform).
  - cbn [CreatePost.platformContent]. unfold CreatePost.applyOptimizations.
    rewrite Forall_forall in IH |- *. intros pc Hpc.
    apply in_map_iff in Hpc. destruct Hpc as (pc0 & <- & Hin).
    specialize (IH pc0 Hin). now destruct (find _ optimizations).
  - repeat constructor.
Qed.

Lemma act_aligned (a : CreatePost.action) (st : CreatePost.state) :
  a <> CreatePost.Saved ->
  map PlatformContent.platform (CreatePost.platformContent st) =
    CreatePost.selectedPlatforms st ->
  map PlatformContent.platform (CreatePost.platformContent (CreatePost.act a st)) =
    CreatePost.selectedPlatforms (CreatePost.act a st).
Proof.
  intros Ha IH. destruct a as [platformId|platform content|optimizations|];
    cbn [CreatePost.act]; [| | |contradiction].
  - unfold CreatePost.togglePlatform.
    destruct (existsb (fun id => id =? platformId)
                      (CreatePost.selectedPlatforms st));
      cbn [CreatePost.platformContent CreatePost.selectedPlatforms].
    + now rewrite map_platform_filter, IH.
    + rewrite map_app, IH. reflexivity.
  - cbn [CreatePost.updatePlatformContent CreatePost.platformContent
         CreatePost.selectedPlatforms].
    rewrite map_map, <- IH. apply map_ext.
    intros pc. now destruct (PlatformContent.platform pc =? platform).
  - cbn [CreatePost.platformContent CreatePost.selectedPlatforms].
    now rewrite map_platform_apply.
Qed.

Lemma run_invariant (history : list CreatePost.action) (st : CreatePost.state) :
  NoDup (CreatePost.selectedPlatforms st) ->
  Forall (fun pc => PlatformContent.characterLimit pc =
                    CreatePost.limit_of (PlatformContent.platform pc))
         (CreatePost.platformContent st) ->
  NoDup (CreatePost.selectedPlatforms (CreatePost.run history st)) /\
  Forall (fun pc => PlatformContent.characterLimit pc =
                    CreatePost.limit_of (PlatformContent.platform pc))
         (CreatePost.platformContent (CreatePost.run history st)).
Proof.
  revert st. induction history as [|a history IH]; intros st Hnd Hlim.
  - now split.
  - apply (IH (CreatePost.act a st)); [now apply act_selection | now apply act_limits].
Qed.

Lemma run_aligned (history : list CreatePost.action) (st : CreatePost.state) :
  CreatePost.unsaved history = true ->
  map PlatformContent.platform (CreatePost.platformContent st) =
    CreatePost.selectedPlatforms st ->
  map PlatformContent.platform
      (CreatePost.platformContent (CreatePost.run history st)) =
    CreatePost.selectedPlatforms (CreatePost.run history st).
Proof.
  revert st. induction history as [|a history IH]; intros st Hu Hal.
  - exact Hal.
  - simpl in Hu. apply andb_true_iff in Hu. destruct Hu as [Ha Hu].
    apply (IH (CreatePost.act a st) Hu). apply act_aligned; [|exact Hal].
    intros ->. discriminate Ha.
Qed.

(** X11. In every state that clicks on the platform buttons, inputs in the
    text fields, answers of the optimizer and successful saves lead to from
    the initial state, no platform is selected twice and every content
    entry carries the character limit of its platform.  As long as no save
    has succeeded, the entries are moreover those of the selected
    platforms, one each, in the order of selection.  A successful save ends
    that: deselecting instagram, saving and selecting instagram again leaves
    the editor with two instagram entries. *)
Theorem editor_one_entry_per_platform :
  (forall st, CreatePost.reachable st ->
     NoDup (CreatePost.selectedPlatforms st) /\
     Forall (fun pc => PlatformContent.characterLimit pc =
                       CreatePost.limit_of (PlatformContent.platform pc))
            (CreatePost.platformContent st)) /\
  (forall history, CreatePost.unsaved history = true ->
     map PlatformContent.platform
         (CreatePost.platformContent (CreatePost.after history)) =
       CreatePost.selectedPlatforms (CreatePost.after history)) /\
  CreatePost.after [CreatePost.Toggle "instagram"; CreatePost.Saved;
                    CreatePost.Toggle "instagram"] =
    CreatePost.State ["instagram"]
      [PlatformContent.Build "instagram" "" [] 2200;
       PlatformContent.Build "instagram" "" [] 2200].
Proof.
  split; [|split; [|reflexivity]].
  - intros st (history & ->). apply run_invariant.
    + constructor; [intros []|constructor].
    + repeat constructor.
  - intros history Hu. now apply run_aligned.
Qed.

Lemma editor_one_entry_per_platform_witness :
  map PlatformContent.platform
      (CreatePost.platformContent
         (CreatePost.togglePlatform "facebook"
            (CreatePost.updatePlatformContent "instagram" "Bague en or"
               CreatePost.initial))) =
  ["instagram"; "facebook"].
Proof.
  destruct editor_one_entry_per_platform as (_ & H & _).
  exact (H [CreatePost.Update "instagram" "Bague en or";
            CreatePost.Toggle "facebook"] eq_refl).
Defined.

Lemma not_selected_after_removal (platformId : string) (l : list string) :
  existsb (fun id => id =? platformId)
          (filter (fun id => negb (id =? platformId)) l) = false.
Proof.
  induction l as [|x l IH]; simpl; [reflexivity|].
  destruct (x =? platformId) eqn:E; simpl; [exact IH | now rewrite E].
Qed.

(** X12. Deselecting a selected platform and selecting it again does not
    bring its entry back: the platform moves to the end of the selection
    and its entry is new, with an empty text and no hashtags; the
    entries of the other platforms are kept. *)
Theorem editor_reselect_erases (platformId : string) (st : CreatePost.state) :
  In platformId (CreatePost.selectedPlatforms st) ->
  CreatePost.togglePlatform platformId (CreatePost.togglePlatform platformId st) =
  CreatePost.State
    (filter (fun id => negb (id =? platformId)) (CreatePost.selectedPlatforms st)
     ++ [platformId])
    (filter (fun pc => negb (PlatformContent.platform pc =? platformId))
            (CreatePost.platformContent st)
     ++ [PlatformContent.Build platformId "" [] (CreatePost.limit_of platformId)]).
Proof.
  intros Hin. apply selected_spec in Hin.
  unfold CreatePost.togglePlatform at 2. rewrite Hin.
  unfold CreatePost.togglePlatform.
  cbn [CreatePost.selectedPlatforms CreatePost.platformContent].
  now rewrite not_selected_after_removal.
Qed.

Lemma editor_reselect_erases_witness :
  CreatePost.platformContent
    (CreatePost.togglePlatform "instagram"
       (CreatePost.togglePlatform "instagram"
          (CreatePost.updatePlatformContent "instagram" "Bague en or"
             CreatePost.initial))) =
  [PlatformContent.Build "instagram" "" [] 2200].
Proof.
  rewrite (editor_reselect_erases "instagram"
             (CreatePost.updatePlatformContent "instagram" "Bague en or"
                CreatePost.initial) (or_introl eq_refl)).
  reflexivity.
Defined.

Lemma apply_generated (make : string -> PlatformOptimization.t)
    (selected : list string) (l : list PlatformContent.t) :
  (forall p, PlatformOptimization.platform (make p) = p) ->
  CreatePost.applyOptimizations (map make selected) l =
  map (fun pc =>
         CreatePost.overwrite selected
           (PlatformOptimization.content (make (PlatformContent.platform pc)))
           (PlatformOptimization.hashtags (make (PlatformContent.platform pc)))
           pc)
      l.
Proof.
  intros Hmake. unfold CreatePost.applyOptimizations, CreatePost.overwrite.
  apply map_ext. intros pc.
  induction selected as [|x xs IH]; [reflexivity|].
  simpl. rewrite Hmake, (String.eqb_sym (PlatformContent.platform pc) x).
  destruct (x =? PlatformContent.platform pc) eqn:E; simpl.
  - apply String.eqb_eq in E. now rewrite E.
  - exact IH.
Qed.

(** What the editor does with a list the optimizer wrote itself. *)
Lemma editor_applies_generated (J : Type) (blank : string -> bool)
    (endpoint : OptimizeRequest.t -> option (Optimizer.reply J))
    (optimizations_of : J -> option (list PlatformOptimization.t))
    (make : string -> string -> PlatformOptimization.t)
    (text : string) (tags : list string)
    (st later : CreatePost.state) (first : PlatformContent.t)
    (rest : list PlatformContent.t) :
  CreatePost.platformContent st = first :: rest ->
  blank (PlatformContent.content first) = false ->
  (forall p, make (PlatformContent.content first) p =
             PlatformOptimization.Build p text tags
               (PlatformOptimization.seo_score
                  (make (PlatformContent.content first) p))
               (PlatformOptimization.suggestions
                  (make (PlatformContent.content first) p))
               (PlatformOptimization.best_time_to_post
                  (make (PlatformContent.content first) p))) ->
  endpoint (OptimizeRequest.Build (Some (PlatformContent.content first))
              (Some (CreatePost.selectedPlatforms st))) =
    Some (Optimizer.Reply 200
            (Optimizer.Optimizations
               (map (make (PlatformContent.content first))
                    (CreatePost.selectedPlatforms st)))) ->
  CreatePost.optimizeWithAI J blank endpoint optimizations_of st later =
  CreatePost.Applied
    (CreatePost.State (CreatePost.selectedPlatforms later)
       (map (CreatePost.overwrite (CreatePost.selectedPlatforms st) text tags)
            (CreatePost.platformContent later))).
Proof.
  intros Hpc Hblank Hmake Hend.
  unfold CreatePost.optimizeWithAI. rewrite Hpc, Hblank, Hend.
  cbn [Optimizer.status Optimizer.body].
  change ((200 <=? 200)%Z && (200 <=? 299)%Z) with true. cbv iota.
  rewrite (apply_generated (make (PlatformContent.content first)))
    by (intros p; now rewrite Hmake).
  do 2 f_equal. apply map_ext. intros pc.
  now rewrite (Hmake (PlatformContent.platform pc)).
Qed.

(** With no platform selected at the click the optimizer answers 400, and
    the editor shows the alert of line 114. *)
Lemma editor_nothing_selected (J : Type) (JSON_parse : string -> option J)
    (ANTHROPIC_API_KEY : option string)
    (fetch : Optimizer.api_call -> Optimizer.api_answer)
    (blank : string -> bool)
    (optimizations_of : J -> option (list PlatformOptimization.t))
    (st later : CreatePost.state) (first : PlatformContent.t)
    (rest : list PlatformContent.t) :
  CreatePost.platformContent st = first :: rest ->
  blank (PlatformContent.content first) = false ->
  CreatePost.selectedPlatforms st = [] ->
  CreatePost.optimizeWithAI J blank
    (fun request =>
       Some (fst (Optimizer.serve J JSON_parse ANTHROPIC_API_KEY fetch "POST"
                    (Normal request))))
    optimizations_of st later =
  CreatePost.Alerted "Erreur lors de l'optimisation IA".
Proof.
  intros Hpc Hblank Hsel.
  unfold CreatePost.optimizeWithAI. rewrite Hpc, Hblank, Hsel.
  unfold Optimizer.serve. cbn [String.eqb Ascii.eqb Bool.eqb].
  cbn [OptimizeRequest.content OptimizeRequest.platforms length Nat.eqb].
  rewrite orb_true_r. reflexivity.
Qed.

(** X13. The optimize button is clicked when the first entry of the editor
    has a text that is not blank, the empty text being blank, and the
    optimizer has no API key.  With no platform selected at the click, the
    alert "Erreur lors de l'optimisation IA" is shown and no state is set.
    Otherwise no alert is shown and, of the entries the editor holds when
    the answer arrives, those of a platform that was selected at the click
    get the text the first entry had at the click followed by the notice
    that the key is missing, and the hashtags "#demo" and "#test"; the
    other entries, the platform and the character limit of every entry, and
    the selection stay as they are when the answer arrives. *)
Theorem editor_optimize_without_key (J : Type) (JSON_parse : string -> option J)
    (ANTHROPIC_API_KEY : option string)
    (fetch : Optimizer.api_call -> Optimizer.api_answer)
    (blank : string -> bool)
    (optimizations_of : J -> option (list PlatformOptimization.t))
    (st later : CreatePost.state) (first : PlatformContent.t)
    (rest : list PlatformContent.t) :
  CreatePost.platformContent st = first :: rest ->
  blank "" = true ->
  blank (PlatformContent.content first) = false ->
  ANTHROPIC_API_KEY = None \/ ANTHROPIC_API_KEY = Some "" ->
  CreatePost.optimizeWithAI J blank
    (fun request =>
       Some (fst (Optimizer.serve J JSON_parse ANTHROPIC_API_KEY fetch "POST"
                    (Normal request))))
    optimizations_of st later =
  match CreatePost.selectedPlatforms st with
  | [] => CreatePost.Alerted "Erreur lors de l'optimisation IA"
  | _ :: _ =>
      CreatePost.Applied
        (CreatePost.State (CreatePost.selectedPlatforms later)
           (map (CreatePost.overwrite (CreatePost.selectedPlatforms st)
                   (PlatformContent.content first ++ newline ++ newline
                    ++ "[Optimisation IA non disponible - Clé API manquante]")%string
                   ["#demo"; "#test"])
                (CreatePost.platformContent later)))
  end.
Proof.
  intros Hpc Hempty Hblank Hkey.
  destruct (CreatePost.selectedPlatforms st) as [|p l] eqn:Hsel.
  - now apply (editor_nothing_selected J JSON_parse ANTHROPIC_API_KEY fetch blank
                 optimizations_of st later first rest).
  - rewrite <- Hsel.
    apply (editor_applies_generated J blank _ optimizations_of Optimizer.without_key
             _ _ st later first rest Hpc Hblank (fun _ => eq_refl)).
    f_equal. unfold Optimizer.serve. cbn [String.eqb Ascii.eqb Bool.eqb].
    cbn [OptimizeRequest.content OptimizeRequest.platforms].
    assert (Hc : (PlatformContent.content first =? "") = false).
    { apply String.eqb_neq. intros Heq. rewrite Heq in Hblank. congruence. }
    rewrite Hc, Hsel. cbn [length Nat.eqb orb].
    destruct Hkey as [->| ->]; reflexivity.
Qed.

Lemma editor_optimize_without_key_witness :
  CreatePost.optimizeWithAI string (fun s => s =? "")
    (fun request =>
       Some (fst (Optimizer.serve string OptimizerSample.accept None
                    OptimizerSample.chatty "POST" (Normal request))))
    (fun _ => None)
    (CreatePost.after [CreatePost.Update "instagram" "Bague en or";
                       CreatePost.Toggle "facebook"])
    (CreatePost.after [CreatePost.Update "instagram" "Bague en or";
                       CreatePost.Toggle "facebook";
                       CreatePost.Toggle "tiktok";
                       CreatePost.Update "tiktok" "Vidéo"]) =
  CreatePost.Applied
    (CreatePost.State ["instagram"; "facebook"; "tiktok"]
       [PlatformContent.Build "instagram"
          ("Bague en or" ++ newline ++ newline
           ++ "[Optimisation IA non disponible - Clé API manquante]")%string
          ["#demo"; "#test"] 2200;
        PlatformContent.Build "facebook"
          ("Bague en or" ++ newline ++ newline
           ++ "[Optimisation IA non disponible - Clé API manquante]")%string
          ["#demo"; "#test"] 63206;
        PlatformContent.Build "tiktok" "Vidéo" [] 2200]) /\
  CreatePost.optimizeWithAI string (fun s => s =? "")
    (fun request =>
       Some (fst (Optimizer.serve string OptimizerSample.accept None
                    OptimizerSample.chatty "POST" (Normal request))))
    (fun _ => None)
    (CreatePost.after [CreatePost.Toggle "instagram"; CreatePost.Saved;
                       CreatePost.Update "instagram" "Bague en or"])
    (CreatePost.after [CreatePost.Toggle "instagram"; CreatePost.Saved;
                       CreatePost.Update "instagram" "Bague en or"]) =
  CreatePost.Alerted "Erreur lors de l'optimisation IA".
Proof.
  split.
  - exact (editor_optimize_without_key string OptimizerSample.accept None
             OptimizerSample.chatty (fun s => s =? "") (fun _ => None)
             (CreatePost.after [CreatePost.Update "instagram" "Bague en or";
                                CreatePost.Toggle "facebook"])
             (CreatePost.after [CreatePost.Update "instagram" "Bague en or";
                                CreatePost.Toggle "facebook";
                                CreatePost.Toggle "tiktok";
                                CreatePost.Update "tiktok" "Vidéo"])
             _ _ eq_refl eq_refl eq_refl (or_introl eq_refl)).
  - exact (editor_optimize_without_key string OptimizerSample.accept None
             OptimizerSample.chatty (fun s => s =? "") (fun _ => None)
             (CreatePost.after [CreatePost.Toggle "instagram"; CreatePost.Saved;
                                CreatePost.Update "instagram" "Bague en or"])
             (CreatePost.after [CreatePost.Toggle "instagram"; CreatePost.Saved;
                                CreatePost.Update "instagram" "Bague en or"])
             _ _ eq_refl eq_refl eq_refl (or_introl eq_refl)).
Defined.

(** X14. The optimize button is clicked when the first entry of the editor
    has a text that is not blank, the empty text being blank; the optimizer
    has a key, and the API answers its call with a text in which no JSON
    can be parsed.  With no platform selected at the click, the alert
    "Erreur lors de l'optimisation IA" is shown and no state is set.
    Otherwise no alert is shown and, of the entries the editor holds when
    the answer arrives, those of a platform that was selected at the click
    get the text the first entry had at the click followed by
    "[Optimisation IA appliquée]", and the five stock hashtags of the
    optimizer; the other entries, the platform and the character limit of
    every entry, and the selection stay as they are when the answer
    arrives. *)
Theorem editor_optimize_unparsed (J : Type) (JSON_parse : string -> option J)
    (key : string) (fetch : Optimizer.api_call -> Optimizer.api_answer)
    (blank : string -> bool)
    (optimizations_of : J -> option (list PlatformOptimization.t))
    (st later : CreatePost.state) (first : PlatformContent.t)
    (rest : list PlatformContent.t) (text : string) :
  CreatePost.platformContent st = first :: rest ->
  blank "" = true ->
  blank (PlatformContent.content first) = false ->
  key <> "" ->
  fetch (Optimizer.ApiCall key "claude-3-5-sonnet-20241022" 4096
           (Optimizer.prompt_for
              (Optimizer.platformNames (CreatePost.selectedPlatforms st))
              (PlatformContent.content first))) =
    Optimizer.Ok (Normal (Some text)) ->
  (forall span, Optimizer.match_braces text = Some span -> JSON_parse span = None) ->
  CreatePost.optimizeWithAI J blank
    (fun request =>
       Some (fst (Optimizer.serve J JSON_parse (Some key) fetch "POST"
                    (Normal request))))
    optimizations_of st later =
  match CreatePost.selectedPlatforms st with
  | [] => CreatePost.Alerted "Erreur lors de l'optimisation IA"
  | _ :: _ =>
      CreatePost.Applied
        (CreatePost.State (CreatePost.selectedPlatforms later)
           (map (CreatePost.overwrite (CreatePost.selectedPlatforms st)
                   (PlatformContent.content first ++ newline ++ newline
                    ++ "[Optimisation IA appliquée]")%string
                   ["#bijoux"; "#jewelry"; "#handmade"; "#fashion"; "#style"])
                (CreatePost.platformContent later)))
  end.
Proof.
  intros Hpc Hempty Hblank Hkey Hfetch Hparse.
  destruct (CreatePost.selectedPlatforms st) as [|p l] eqn:Hsel.
  - now apply (editor_nothing_selected J JSON_parse (Some key) fetch blank
                 optimizations_of st later first rest).
  - rewrite <- Hsel in Hfetch |- *.
    apply (editor_applies_generated J blank _ optimizations_of Optimizer.unparsed
             _ _ st later first rest Hpc Hblank (fun _ => eq_refl)).
    f_equal. unfold Optimizer.serve. cbn [String.eqb Ascii.eqb Bool.eqb].
    cbn [OptimizeRequest.content OptimizeRequest.platforms].
    assert (Hc : (PlatformContent.content first =? "") = false).
    { apply String.eqb_neq. intros Heq. rewrite Heq in Hblank. congruence. }
    assert (Hlen : Nat.eqb (length (CreatePost.selectedPlatforms st)) 0 = false)
      by now rewrite Hsel.
    apply String.eqb_neq in Hkey. rewrite Hc, Hkey, Hlen.
    cbn [orb]. cbv zeta. rewrite Hfetch.
    cbn [fst]. f_equal. unfold Optimizer.result_of.
    destruct (Optimizer.match_braces text) as [span|] eqn:Hspan; [|reflexivity].
    now rewrite (Hparse span eq_refl).
Qed.

Lemma editor_optimize_unparsed_witness :
  CreatePost.optimizeWithAI string (fun s => s =? "")
    (fun request =>
       Some (fst (Optimizer.serve string OptimizerSample.refuse (Some "sk-test")
                    OptimizerSample.chatty "POST" (Normal request))))
    (fun _ => None)
    (CreatePost.after [CreatePost.Toggle "instagram"; CreatePost.Toggle "facebook";
                       CreatePost.Saved;
                       CreatePost.Update "instagram" "Bague en or"])
    (CreatePost.after [CreatePost.Toggle "instagram"; CreatePost.Toggle "facebook";
                       CreatePost.Saved;
                       CreatePost.Update "instagram" "Bague en or";
                       CreatePost.Toggle "pinterest"]) =
  CreatePost.Applied
    (CreatePost.State ["facebook"; "pinterest"]
       [PlatformContent.Build "instagram" "Bague en or" [] 2200;
        PlatformContent.Build "pinterest" "" [] 500]).
Proof.
  exact (editor_optimize_unparsed string OptimizerSample.refuse "sk-test"
           OptimizerSample.chatty (fun s => s =? "") (fun _ => None)
           (CreatePost.after [CreatePost.Toggle "instagram";
                              CreatePost.Toggle "facebook"; CreatePost.Saved;
                              CreatePost.Update "instagram" "Bague en or"])
           (CreatePost.after [CreatePost.Toggle "instagram";
                              CreatePost.Toggle "facebook"; CreatePost.Saved;
                              CreatePost.Update "instagram" "Bague en or";
                              CreatePost.Toggle "pinterest"])
           _ _ "Voici: {x} fin"
           eq_refl eq_refl eq_refl ltac:(discriminate) eq_refl
           (fun _ _ => eq_refl)).
Defined.
